(** * Product search backend (app.py): catalog loader, normaliser and search

    A shallow embedding of the product part of [app.py]: [load_data],
    [normalize_product], [get_top_products] and [search_products], together
    with the Python built-ins they call ([str], [float], [str.lower],
    [str.strip], [in], [dict.get], [list.sort]).  The account routes
    ([signup], [login], [logout], [home]) follow, over the services they
    call.

    Conventions.
    - A Python [str] is a [string]; each character stands for the code point
      of the same number (0..255), so [lower] and [isspace] follow Unicode on
      that range.
    - A value read by [json.load] is a [json]; an object is the [dict] Python
      builds from it, kept as an association list in insertion order.
    - A Python [float] is a binary64 number, [spec_float] at precision 53.
    - An expression that may raise evaluates to a [result]. *)

From Stdlib Require Import ZArith NArith List String Ascii Bool Lia.
From Stdlib Require Import Permutation Sorted DecimalString.
From Stdlib Require Import Floats.SpecFloat.
Import ListNotations.

Open Scope string_scope.
Open Scope Z_scope.

(** ** Exceptions *)

Inductive exn : Set :=
| AttributeError
| TypeError
| KeyError
| ValueError
| OverflowError
| OSError.

Inductive result (A : Type) : Type :=
| Ok (a : A)
| Raise (e : exn).

Arguments Ok {A} a.
Arguments Raise {A} e.

Definition bind {A B : Type} (r : result A) (k : A -> result B) : result B :=
  match r with
  | Ok a => k a
  | Raise e => Raise e
  end.

Declare Scope py_scope.
Delimit Scope py_scope with py.
Notation "x <- c ;; k" := (bind c (fun x => k))
  (at level 61, c at next level, right associativity) : py_scope.
Open Scope py_scope.

(** [try: body / except Exception: handler]. *)
Definition try_except {A : Type} (body : result A) (handler : exn -> result A)
  : result A :=
  match body with
  | Ok a => Ok a
  | Raise e => handler e
  end.

(** A list comprehension [[f(x) for x in l]] whose body may raise. *)
Fixpoint comprehension {A B : Type} (f : A -> result B) (l : list A)
  : result (list B) :=
  match l with
  | [] => Ok []
  | x :: l' =>
      y <- f x ;;
      ys <- comprehension f l' ;;
      Ok (y :: ys)
  end.

(** ** Text *)

Module Text.

Definition between (lo hi n : N) : bool := ((lo <=? n) && (n <=? hi))%N.

(** [c.isspace()], which is also what [str.strip] removes. *)
Definition isspace (c : ascii) : bool :=
  let n := N_of_ascii c in
  between 9 13 n || between 28 32 n || (n =? 133)%N || (n =? 160)%N.

Definition isupper (c : ascii) : bool :=
  let n := N_of_ascii c in
  between 65 90 n || (between 192 222 n && negb (n =? 215)%N).

Definition lower_char (c : ascii) : ascii :=
  if isupper c then ascii_of_N (N_of_ascii c + 32) else c.

(** [s.lower()] *)
Fixpoint lower (s : string) : string :=
  match s with
  | EmptyString => EmptyString
  | String c r => String (lower_char c) (lower r)
  end.

Fixpoint lstrip (s : string) : string :=
  match s with
  | EmptyString => EmptyString
  | String c r => if isspace c then lstrip r else s
  end.

Fixpoint rstrip (s : string) : string :=
  match s with
  | EmptyString => EmptyString
  | String c r =>
      match rstrip r with
      | EmptyString => if isspace c then EmptyString else String c EmptyString
      | r' => String c r'
      end
  end.

(** [s.strip()] *)
Definition strip (s : string) : string := rstrip (lstrip s).

(** [needle in hay] on two strings. *)
Fixpoint contains (needle hay : string) : bool :=
  match hay with
  | EmptyString => prefix needle hay
  | String _ r => prefix needle hay || contains needle r
  end.

Fixpoint all_chars (f : ascii -> bool) (s : string) : bool :=
  match s with
  | EmptyString => true
  | String c r => f c && all_chars f r
  end.

End Text.

(** ** Dictionaries

    A [dict] with [str] keys: bindings in insertion order, one per key.
    Assigning to a key that is present replaces the value where it stands;
    a new key goes to the end. *)

Module Dict.
Section Ops.
Context {V : Type}.

Definition t := list (string * V).

Fixpoint get (d : list (string * V)) (k : string) : option V :=
  match d with
  | [] => None
  | (k', v) :: d' => if (k' =? k)%string then Some v else get d' k
  end.

(** [k in d] *)
Definition mem (d : list (string * V)) (k : string) : bool :=
  match get d k with Some _ => true | None => false end.

(** [d[k] = v] *)
Fixpoint set (d : list (string * V)) (k : string) (v : V)
  : list (string * V) :=
  match d with
  | [] => [(k, v)]
  | (k', v') :: d' =>
      if (k' =? k)%string then (k, v) :: d' else (k', v') :: set d' k v
  end.

(** [d[k]] *)
Definition item (d : list (string * V)) (k : string) : result V :=
  match get d k with Some v => Ok v | None => Raise KeyError end.

(** [d.get(k, dflt)] *)
Definition get_default (d : list (string * V)) (k : string) (dflt : V) : V :=
  match get d k with Some v => v | None => dflt end.

Definition keys (d : list (string * V)) : list string := map fst d.
Definition values (d : list (string * V)) : list V := map snd d.
End Ops.
Arguments t V : clear implicits.
End Dict.

(** ** JSON values as Python holds them *)

#[warnings="-register-all"]
Inductive json : Type :=
| JNull
| JBool (b : bool)
| JInt (z : Z)
| JFloat (f : spec_float)
| JStr (s : string)
| JArr (l : list json)
| JObj (d : list (string * json)).

(** A catalog record, [Dict[str, Any]]. *)
Definition product : Type := Dict.t json.

(** ** Python floats *)

Module PyFloat.

Definition zero : spec_float := S754_zero false.
Definition one : spec_float := S754_finite false 4503599627370496 (-52).

Definition round64 (m e : Z) : spec_float := binary_normalize 53 1024 m e false.

(** [float(z)] for an [int]: the nearest float, [OverflowError] beyond the
    largest one. *)
Definition of_int (z : Z) : result spec_float :=
  match round64 z 0 with
  | S754_infinity _ => Raise OverflowError
  | f => Ok f
  end.

(** The float nearest to [m * 10^e10], for [0 <= m] (ties to even, infinity
    on overflow).  A negative exponent divides with 64 spare bits and a
    sticky bit, so that one rounding decides. *)
Definition of_decimal (neg : bool) (m e10 : Z) : spec_float :=
  let r :=
    if m =? 0 then zero
    else if 0 <=? e10 then round64 (m * 10 ^ e10) 0
    else
      let den := 10 ^ (- e10) in
      let s := 64 + Z.log2_up den in
      let n := m * 2 ^ s in
      let sticky := if n mod den =? 0 then 0 else 1 in
      round64 (2 * (n / den) + sticky) (- (s + 1)) in
  if neg then SFopp r else r.

(** *** [float(s)] for a [str] *)

Definition is_digit (c : ascii) : bool := Text.between 48 57 (N_of_ascii c).
Definition digit_val (c : ascii) : Z := Z.of_N (N_of_ascii c) - 48.

(** White space [float] accepts around the number. *)
Definition is_pad (c : ascii) : bool :=
  let n := N_of_ascii c in
  Text.between 9 13 n || (n =? 32)%N || (n =? 133)%N || (n =? 160)%N.

Fixpoint lpad (s : string) : string :=
  match s with
  | EmptyString => EmptyString
  | String c r => if is_pad c then lpad r else s
  end.

Fixpoint rpad (s : string) : string :=
  match s with
  | EmptyString => EmptyString
  | String c r =>
      match rpad r with
      | EmptyString => if is_pad c then EmptyString else String c EmptyString
      | r' => String c r'
      end
  end.

(** Underscores stand between two digits only; [None] when one does not,
    otherwise the text without them. *)
Fixpoint drop_underscores (prev : ascii) (s : string) : option string :=
  match s with
  | EmptyString => if (prev =? "_")%char then None else Some EmptyString
  | String c r =>
      if (c =? "_")%char then
        if is_digit prev then drop_underscores c r else None
      else if (prev =? "_")%char && negb (is_digit c) then None
      else option_map (String c) (drop_underscores c r)
  end.

(** Leading digits of [s]: their value after [acc], their number, the rest. *)
Fixpoint digits (s : string) (acc cnt : Z) : Z * Z * string :=
  match s with
  | EmptyString => (acc, cnt, s)
  | String c r =>
      if is_digit c then digits r (10 * acc + digit_val c) (cnt + 1)
      else (acc, cnt, s)
  end.

Definition sign (s : string) : bool * string :=
  match s with
  | String "-" r => (true, r)
  | String "+" r => (false, r)
  | _ => (false, s)
  end.

Definition exponent (s : string) : option Z :=
  match s with
  | EmptyString => Some 0
  | String c r =>
      if (c =? "e")%char || (c =? "E")%char then
        let (neg, r1) := sign r in
        match digits r1 0 0 with
        | (v, n, EmptyString) =>
            if n =? 0 then None else Some (if neg then - v else v)
        | _ => None
        end
      else None
  end.

Definition decimal (neg : bool) (s : string) : option spec_float :=
  let '(ip, ni, r1) := digits s 0 0 in
  let '(m, nf, r2) :=
    match r1 with
    | String "." r => digits r ip 0
    | _ => (ip, 0, r1)
    end in
  if ni + nf =? 0 then None
  else option_map (fun e => of_decimal neg m (e - nf)) (exponent r2).

Definition special (neg : bool) (s : string) : option spec_float :=
  let l := Text.lower s in
  if (l =? "inf")%string || (l =? "infinity")%string then Some (S754_infinity neg)
  else if (l =? "nan")%string then Some S754_nan
  else None.

Definition of_str (s : string) : result spec_float :=
  match drop_underscores "000" (rpad (lpad s)) with
  | None => Raise ValueError
  | Some t =>
      let (neg, u) := sign t in
      match decimal neg u with
      | Some f => Ok f
      | None =>
          match special neg u with
          | Some f => Ok f
          | None => Raise ValueError
          end
      end
  end.

End PyFloat.

(** ** [str] and [repr] *)

Module PyStr.

Definition of_nat_Z (z : Z) : string := NilZero.string_of_uint (N.to_uint (Z.to_N z)).

(** [str(z)] for an [int]. *)
Definition of_int (z : Z) : string := NilZero.string_of_int (Z.to_int z).

Fixpoint zeros (n : nat) : string :=
  match n with
  | O => EmptyString
  | S n' => String "0" (zeros n')
  end.

Fixpoint rstrip_zeros (s : string) : string :=
  match s with
  | EmptyString => EmptyString
  | String c r =>
      match rstrip_zeros r with
      | EmptyString => if (c =? "0")%char then EmptyString else String c EmptyString
      | r' => String c r'
      end
  end.

Fixpoint take (n : nat) (s : string) : string :=
  match n, s with
  | S n', String c r => String c (take n' r)
  | _, _ => EmptyString
  end.

Fixpoint drop (n : nat) (s : string) : string :=
  match n, s with
  | S n', String _ r => drop n' r
  | _, _ => s
  end.

(** *** [repr] of a float: the shortest digits that read back as the same
    float, the nearest to it among those. *)

(** [10^p <= num/den] *)
Definition pow10_le (p num den : Z) : bool :=
  if 0 <=? p then 10 ^ p * den <=? num else den <=? num * 10 ^ (- p).

Fixpoint climb (fuel : nat) (p num den : Z) : Z :=
  match fuel with
  | O => p
  | S fuel' => if pow10_le (p + 1) num den then climb fuel' (p + 1) num den else p
  end.

(** The [p] with [10^p <= num/den < 10^(p+1)]. *)
Definition floor_log10 (num den : Z) : Z :=
  climb 4 ((Z.log2 num - Z.log2 den - 1) * 30103 / 100000 - 1) num den.

Definition reads_back (x : spec_float) (c scale : Z) : bool :=
  SFeqb (PyFloat.of_decimal false c (- scale)) x.

(** Digits and decimal exponent with [n] digits, when some do read back. *)
Definition candidate (x : spec_float) (num den p : Z) (n : Z) (last : bool)
  : option (Z * Z) :=
  let scale := n - 1 - p in
  let ynum := if 0 <=? scale then num * 10 ^ scale else num in
  let yden := if 0 <=? scale then den else den * 10 ^ (- scale) in
  let lo := ynum / yden in
  let rem := ynum mod yden in
  let hi := lo + 1 in
  let near_lo := (2 * rem <? yden) || ((2 * rem =? yden) && Z.even lo) in
  let ok_lo := reads_back x lo scale in
  let ok_hi := reads_back x hi scale in
  if ok_lo && (near_lo || negb ok_hi) then Some (lo, scale)
  else if ok_hi then Some (hi, scale)
  else if last then Some (if near_lo then lo else hi, scale)
  else None.

Fixpoint shortest (fuel : nat) (x : spec_float) (num den p n : Z) : Z * Z :=
  match fuel with
  | O => (0, 0)
  | S fuel' =>
      match candidate x num den p n (match fuel' with O => true | _ => false end) with
      | Some r => r
      | None => shortest fuel' x num den p (n + 1)
      end
  end.

Definition exponent_text (e : Z) : string :=
  let a := of_nat_Z (Z.abs e) in
  (if e <? 0 then "-" else "+") ++ (if Z.abs e <? 10 then "0" else EmptyString) ++ a.

(** The text for digits [ds] with the point after [decpt] of them. *)
Definition layout (ds : string) (decpt : Z) : string :=
  let n := Z.of_nat (String.length ds) in
  if (decpt <=? -4) || (16 <? decpt) then
    String.append (take 1 ds)
      ((if 1 <? n then "." ++ drop 1 ds else EmptyString) ++ "e" ++ exponent_text (decpt - 1))
  else if decpt <=? 0 then "0." ++ zeros (Z.to_nat (- decpt)) ++ ds
  else if n <=? decpt then ds ++ zeros (Z.to_nat (decpt - n)) ++ ".0"
  else take (Z.to_nat decpt) ds ++ "." ++ drop (Z.to_nat decpt) ds.

Definition of_float (x : spec_float) : string :=
  match x with
  | S754_nan => "nan"
  | S754_infinity s => if s then "-inf" else "inf"
  | S754_zero s => if s then "-0.0" else "0.0"
  | S754_finite s m e =>
      let num := if 0 <=? e then Zpos m * 2 ^ e else Zpos m in
      let den := if 0 <=? e then 1 else 2 ^ (- e) in
      let p := floor_log10 num den in
      let '(c, scale) := shortest 17 (S754_finite false m e) num den p 1 in
      let all := of_nat_Z c in
      let decpt := Z.of_nat (String.length all) - scale in
      (if s then "-" else EmptyString) ++ layout (rstrip_zeros all) decpt
  end.

(** *** [repr] of a [str] *)

Definition hex_digit (n : N) : ascii :=
  if (n <? 10)%N then ascii_of_N (48 + n) else ascii_of_N (87 + n).

Definition isprintable (c : ascii) : bool :=
  let n := N_of_ascii c in
  negb ((n <? 32)%N || Text.between 127 160 n || (n =? 173)%N).

Definition escape (quote c : ascii) : string :=
  if (c =? quote)%char || (c =? "\")%char then String "\" (String c EmptyString)
  else if (c =? "009")%char then "\t"
  else if (c =? "010")%char then "\n"
  else if (c =? "013")%char then "\r"
  else if isprintable c then String c EmptyString
  else
    let n := N_of_ascii c in
    String "\" (String "x" (String (hex_digit (n / 16)) (String (hex_digit (n mod 16)) EmptyString))).

Fixpoint escape_all (quote : ascii) (s : string) : string :=
  match s with
  | EmptyString => EmptyString
  | String c r => escape quote c ++ escape_all quote r
  end.

Fixpoint has_char (q : ascii) (s : string) : bool :=
  match s with
  | EmptyString => false
  | String c r => (c =? q)%char || has_char q r
  end.

Definition of_text (s : string) : string :=
  let quote : ascii :=
    if has_char "'" s && negb (has_char "034" s) then "034"%char else "'"%char in
  String quote (escape_all quote s ++ String quote EmptyString).

Definition join (parts : list string) : string := String.concat ", " parts.

(** [repr(j)] *)
Fixpoint repr (j : json) : string :=
  match j with
  | JNull => "None"
  | JBool b => if b then "True" else "False"
  | JInt z => of_int z
  | JFloat f => of_float f
  | JStr s => of_text s
  | JArr l => "[" ++ join (map repr l) ++ "]"
  | JObj d => "{" ++ join (map (fun kv => of_text (fst kv) ++ ": " ++ repr (snd kv)) d) ++ "}"
  end.

(** [str(j)]: the text itself for a [str], [repr] otherwise. *)
Definition str (j : json) : string :=
  match j with
  | JStr s => s
  | _ => repr j
  end.

End PyStr.

(** ** Operations on values whose type is only known at run time *)

Module Py.

(** [float(v)] *)
Definition float (v : json) : result spec_float :=
  match v with
  | JInt z => PyFloat.of_int z
  | JFloat f => Ok f
  | JBool b => Ok (if b then PyFloat.one else PyFloat.zero)
  | JStr s => PyFloat.of_str s
  | JNull | JArr _ | JObj _ => Raise TypeError
  end.

(** [v.lower()] *)
Definition lower (v : json) : result string :=
  match v with
  | JStr s => Ok (Text.lower s)
  | _ => Raise AttributeError
  end.

(** [v.strip()] *)
Definition strip (v : json) : result string :=
  match v with
  | JStr s => Ok (Text.strip s)
  | _ => Raise AttributeError
  end.

(** [v.get(k, dflt)] *)
Definition get (v : json) (k : string) (dflt : json) : result json :=
  match v with
  | JObj d => Ok (Dict.get_default d k dflt)
  | _ => Raise AttributeError
  end.

Definition is_text (k : string) (v : json) : bool :=
  match v with
  | JStr s => (s =? k)%string
  | _ => false
  end.

(** [k in v] for a [str] [k] *)
Definition contains (v : json) (k : string) : result bool :=
  match v with
  | JObj d => Ok (Dict.mem d k)
  | JArr l => Ok (existsb (is_text k) l)
  | JStr s => Ok (Text.contains k s)
  | JNull | JBool _ | JInt _ | JFloat _ => Raise TypeError
  end.

(** [v[k]] for a [str] [k] *)
Definition subscript (v : json) (k : string) : result json :=
  match v with
  | JObj d => Dict.item d k
  | _ => Raise TypeError
  end.

Fixpoint chars (s : string) : list json :=
  match s with
  | EmptyString => []
  | String c r => JStr (String c EmptyString) :: chars r
  end.

(** The values [for x in v] runs through. *)
Definition iter (v : json) : result (list json) :=
  match v with
  | JArr l => Ok l
  | JObj d => Ok (map JStr (Dict.keys d))
  | JStr s => Ok (chars s)
  | JNull | JBool _ | JInt _ | JFloat _ => Raise TypeError
  end.

(** [v in d] for a [dict] [d] with [str] keys: lists and dicts cannot be
    hashed, and nothing but a [str] equals a key. *)
Definition key_in {V : Type} (d : Dict.t V) (v : json) : result bool :=
  match v with
  | JStr s => Ok (Dict.mem d s)
  | JArr _ | JObj _ => Raise TypeError
  | JNull | JBool _ | JInt _ | JFloat _ => Ok false
  end.

(** [d[v]] for a [dict] [d] with [str] keys *)
Definition key_item {V : Type} (d : Dict.t V) (v : json) : result V :=
  match v with
  | JStr s => Dict.item d s
  | JArr _ | JObj _ => Raise TypeError
  | JNull | JBool _ | JInt _ | JFloat _ => Raise KeyError
  end.

End Py.

(** ** The module's state and the procedures that change it *)

Record globals : Type := {
  PRODUCTS_MAP : Dict.t product;
  PRODUCT_NAMES_MAP : Dict.t string;
  RECOMMENDATIONS : json
}.

Definition no_data : globals :=
  {| PRODUCTS_MAP := []; PRODUCT_NAMES_MAP := []; RECOMMENDATIONS := JObj [] |}.

(** A procedure runs on the globals and ends normally or by raising; what it
    wrote before raising stays written. *)
Definition proc (A : Type) : Type := globals -> result A * globals.

Module Proc.

Definition ret {A : Type} (a : A) : proc A := fun g => (Ok a, g).

Definition raise {A : Type} (e : exn) : proc A := fun g => (Raise e, g).

Definition lift {A : Type} (r : result A) : proc A := fun g => (r, g).

Definition bind {A B : Type} (c : proc A) (k : A -> proc B) : proc B :=
  fun g =>
    match c g with
    | (Ok a, g') => k a g'
    | (Raise e, g') => (Raise e, g')
    end.

Definition try_except (body : proc unit) (handler : exn -> proc unit) : proc unit :=
  fun g =>
    match body g with
    | (Ok a, g') => (Ok a, g')
    | (Raise e, g') => handler e g'
    end.

Definition modify (f : globals -> globals) : proc unit := fun g => (Ok tt, f g).

Fixpoint for_each {A : Type} (l : list A) (body : A -> proc unit) : proc unit :=
  match l with
  | [] => ret tt
  | x :: l' => bind (body x) (fun _ => for_each l' body)
  end.

End Proc.

Declare Scope proc_scope.
Delimit Scope proc_scope with proc.
Notation "x <- c ;; k" := (Proc.bind c (fun x => k))
  (at level 61, c at next level, right associativity) : proc_scope.
Notation "c ;; k" := (Proc.bind c (fun _ => k))
  (at level 61, right associativity) : proc_scope.

(** ** The data directory *)

Inductive file : Type :=
| Absent
| Unreadable (e : exn)
| Holds (j : json).

(** What [DATA_DIR] holds under each file name. *)
Definition directory : Type := string -> file.

Definition exists_ (f : file) : bool :=
  match f with
  | Absent => false
  | _ => true
  end.

(** [open] followed by [json.load]. *)
Definition json_load (f : file) : result json :=
  match f with
  | Holds j => Ok j
  | Unreadable e => Raise e
  | Absent => Raise OSError
  end.

(** ** [load_data] *)

Definition set_product (pid : string) (item : product) : proc unit :=
  Proc.modify (fun g =>
    {| PRODUCTS_MAP := Dict.set (PRODUCTS_MAP g) pid item;
       PRODUCT_NAMES_MAP := PRODUCT_NAMES_MAP g;
       RECOMMENDATIONS := RECOMMENDATIONS g |}).

Definition set_name (name pid : string) : proc unit :=
  Proc.modify (fun g =>
    {| PRODUCTS_MAP := PRODUCTS_MAP g;
       PRODUCT_NAMES_MAP := Dict.set (PRODUCT_NAMES_MAP g) name pid;
       RECOMMENDATIONS := RECOMMENDATIONS g |}).

Definition set_recommendations (r : json) : proc unit :=
  Proc.modify (fun g =>
    {| PRODUCTS_MAP := PRODUCTS_MAP g;
       PRODUCT_NAMES_MAP := PRODUCT_NAMES_MAP g;
       RECOMMENDATIONS := r |}).

(** [str(item.get("product_id_numeric", item.get("product_id", "N/A")))] *)
Definition derived_id (item : product) : string :=
  PyStr.str
    (Dict.get_default item "product_id_numeric"
       (Dict.get_default item "product_id" (JStr "N/A"))).

(** The body of the loop over [data_list]; [.get] exists on a dict only. *)
Definition index_item (item : json) : proc unit :=
  match item with
  | JStr _ => Proc.ret tt
  | JObj p =>
      let pid := derived_id p in
      if negb (pid =? "None")%string then
        (set_product pid p ;;
         name <- Proc.lift (Py.strip (Dict.get_default p "product_name" (JStr EmptyString))) ;;
         set_name name pid)%proc
      else Proc.ret tt
  | _ => Proc.raise AttributeError
  end.

Definition data_list (raw : json) : list json :=
  match raw with
  | JArr l => l
  | JObj d => Dict.values d
  | _ => []
  end.

Definition possible_filenames : list string :=
  ["product_matrix.json"; "product_index_map.json"].

Definition load_matrix (f : file) : proc unit :=
  Proc.try_except
    (raw <- Proc.lift (json_load f) ;;
     Proc.for_each (data_list raw) index_item)%proc
    (fun _ => Proc.ret tt).

Definition load_recommendations (f : file) : proc unit :=
  Proc.try_except
    (r <- Proc.lift (json_load f) ;;
     set_recommendations r)%proc
    (fun _ => Proc.ret tt).

(** [load_data()]; [None] stands for a [DATA_DIR] that does not exist.  The
    diagnostics it prints are left out. *)
Definition load_data (fs : option directory) : proc unit :=
  (Proc.modify (fun _ => no_data) ;;
   match fs with
   | None => Proc.ret tt
   | Some dir =>
       match find (fun fname => exists_ (dir fname)) possible_filenames with
       | Some fname => load_matrix (dir fname)
       | None => Proc.ret tt
       end ;;
       if exists_ (dir "precomputed_hybrid.json")
       then load_recommendations (dir "precomputed_hybrid.json")
       else Proc.ret tt
   end)%proc.

(** The globals after [load_data()], whatever they were before. *)
Definition loaded (fs : option directory) : globals := snd (load_data fs no_data).

(** ** [normalize_product] *)

Record normalized : Type := {
  p_id : string;
  name : json;
  brand : json;
  rating : json;
  prices : spec_float;
  discounted_price : spec_float;
  img_link : json;
  p_link : json
}.

Definition normalize_product (p : product) : result normalized :=
  price <- try_except
             (Py.float (Dict.get_default p "actual_price" (JInt 0)))
             (fun _ => Ok PyFloat.zero) ;;
  disc <- try_except
            (match Dict.get p "discounted_price" with
             | Some v => Py.float v
             | None => Ok price
             end)
            (fun _ => Ok price) ;;
  Ok {| p_id := PyStr.str (Dict.get_default p "product_id_numeric" JNull);
        name := Dict.get_default p "product_name" (JStr "Unknown");
        brand := Dict.get_default p "Brand" (JStr "Generic");
        rating := Dict.get_default p "rating" (JInt 0);
        prices := price;
        discounted_price := disc;
        img_link := Dict.get_default p "img_link" (JStr EmptyString);
        p_link := Dict.get_default p "product_link" (JStr "#") |}.

(** ** [get_top_products] *)

Definition get_top_products (g : globals) : result (list normalized) :=
  match PRODUCTS_MAP g with
  | [] => Ok []
  | _ => comprehension normalize_product (firstn 20 (Dict.values (PRODUCTS_MAP g)))
  end.

(** ** [search_products] *)

(** [str(p.get("Brand")).lower()] *)
Definition brand_text (p : product) : string :=
  Text.lower (PyStr.str (Dict.get_default p "Brand" JNull)).

(** [query in p.get("product_name", "").lower()] *)
Definition name_matches (query : string) (p : product) : result bool :=
  lowered <- Py.lower (Dict.get_default p "product_name" (JStr EmptyString)) ;;
  Ok (Text.contains query lowered).

(** Stage 1: the brand comprehension. *)
Definition brand_search (query : string) (g : globals) : list product :=
  filter (fun p => (query =? brand_text p)%string) (Dict.values (PRODUCTS_MAP g)).

(** Stage 2, first loop: [matched_id] when the loop ends or breaks. *)
Fixpoint find_anchor (query : string) (items : list (string * product))
  : result (option string) :=
  match items with
  | [] => Ok None
  | (pid, p) :: rest =>
      hit <- name_matches query p ;;
      if hit then Ok (Some pid) else find_anchor query rest
  end.

(** Stage 2, one turn of the loop over [rec_list]: [results] afterwards. *)
Definition resolve_stub (g : globals) (results : list product) (rec : json)
  : result (list product) :=
  stub_name <- Py.get rec "product_name" JNull ;;
  known <- Py.key_in (PRODUCT_NAMES_MAP g) stub_name ;;
  if known then
    pid <- Py.key_item (PRODUCT_NAMES_MAP g) stub_name ;;
    p <- Dict.item (PRODUCTS_MAP g) pid ;;
    Ok (results ++ [p])%list
  else Ok results.

Fixpoint resolve (g : globals) (rec_list : list json) (results : list product)
  : result (list product) :=
  match rec_list with
  | [] => Ok results
  | rec :: rest =>
      results' <- resolve_stub g results rec ;;
      resolve g rest results'
  end.

(** Stage 2 as a whole: [Some results] when it returns them, [None] when
    control passes on to the fallback. *)
Definition hybrid_recs (g : globals) (matched_id : option string)
  : result (option (list product)) :=
  match matched_id with
  | None => Ok None
  | Some pid =>
      if (pid =? EmptyString)%string then Ok None
      else
        present <- Py.contains (RECOMMENDATIONS g) pid ;;
        if present then
          rec_list <- Py.subscript (RECOMMENDATIONS g) pid ;;
          stubs <- Py.iter rec_list ;;
          results <- resolve g stubs [] ;;
          match results with
          | [] => Ok None
          | _ :: _ => Ok (Some results)
          end
        else Ok None
  end.

(** Stage 3: the score of one record. *)
Definition score_of (query : string) (p : product) : result Z :=
  hit <- name_matches query p ;;
  let score := 0 in
  let score := if hit then score + 10 else score in
  let score := if Text.contains query (brand_text p) then score + 5 else score in
  Ok score.

Fixpoint scoring (query : string) (items : list (string * product))
  (scored : list (Z * product)) : result (list (Z * product)) :=
  match items with
  | [] => Ok scored
  | (_, p) :: rest =>
      score <- score_of query p ;;
      scoring query rest (if 0 <? score then (scored ++ [(score, p)])%list else scored)
  end.

(** [l.sort(key=key, reverse=True)]: a stable sort, largest key first.  Each
    element is put in front of the first one whose key is not larger. *)
Fixpoint insert_desc {A : Type} (key : A -> Z) (x : A) (l : list A) : list A :=
  match l with
  | [] => [x]
  | y :: l' => if key x <? key y then y :: insert_desc key x l' else x :: l
  end.

Fixpoint sort_desc {A : Type} (key : A -> Z) (l : list A) : list A :=
  match l with
  | [] => []
  | x :: l' => insert_desc key x (sort_desc key l')
  end.

Definition fallback (query : string) (g : globals) : result (list normalized) :=
  scored <- scoring query (PRODUCTS_MAP g) [] ;;
  comprehension normalize_product (map snd (firstn 20 (sort_desc fst scored))).

(** [(q or "").lower().strip()] *)
Definition query_of (q : option string) : string :=
  Text.strip (Text.lower (match q with Some s => s | None => EmptyString end)).

Definition search_products (q : option string) (g : globals)
  : result (list normalized) :=
  let query := query_of q in
  if (query =? EmptyString)%string then Ok []
  else
    match brand_search query g with
    | (_ :: _) as brand_matches =>
        comprehension normalize_product (firstn 20 brand_matches)
    | [] =>
        matched_id <- find_anchor query (PRODUCTS_MAP g) ;;
        stage2 <- hybrid_recs g matched_id ;;
        match stage2 with
        | Some results => comprehension normalize_product (firstn 20 results)
        | None => fallback query g
        end
    end.

(** * Vocabulary of the statements *)

(** [r] is a normal end, not an exception. *)
Definition returns {A : Type} (r : result A) : Prop := exists a, r = Ok a.

(** [n] is what [normalize_product(p)] returns. *)
Definition normalizes (p : product) (n : normalized) : Prop :=
  normalize_product p = Ok n.

(** A query that is absent, empty or white space only. *)
Definition blank (q : option string) : bool :=
  match q with
  | None => true
  | Some s => Text.all_chars Text.isspace s
  end.

(** The list price and the discounted price as the specification words
    them: the parsed field, else a fallback. *)
Definition parsed_or (field : option json) (fallback : spec_float) : spec_float :=
  match field with
  | None => fallback
  | Some v =>
      match Py.float v with
      | Ok f => f
      | Raise _ => fallback
      end
  end.

(** ** Invariants of the loaded state *)

(** Every id the name index gives is a key of the catalog. *)
Definition index_sound (g : globals) : Prop :=
  forall nm pid,
    Dict.get (PRODUCT_NAMES_MAP g) nm = Some pid ->
    Dict.mem (PRODUCTS_MAP g) pid = true.

(** Every record is filed under its derived id, which is not [None]. *)
Definition filed_by_id (g : globals) : Prop :=
  forall pid p,
    In (pid, p) (PRODUCTS_MAP g) -> derived_id p = pid /\ pid <> "None".

Definition load_inv (g : globals) : Prop := index_sound g /\ filed_by_id g.

(** [c] keeps [I], whether it ends normally or raises. *)
Definition preserves {A : Type} (I : globals -> Prop) (c : proc A) : Prop :=
  forall g, I g -> I (snd (c g)).

(** The chained look-up of stage 2, [PRODUCTS_MAP[PRODUCT_NAMES_MAP[name]]]. *)
Definition chained_lookup (g : globals) (stub_name : json) : result product :=
  pid <- Py.key_item (PRODUCT_NAMES_MAP g) stub_name ;;
  Dict.item (PRODUCTS_MAP g) pid.

(** ** Matching, as the specification words it *)

(** The record has a brand field that is a text equal to the query, letter
    case apart. *)
Definition brand_is (query : string) (p : product) : Prop :=
  exists b, Dict.get p "Brand" = Some (JStr b) /\ Text.lower b = query.

(** The name of [p] contains the query, letter case apart; a record without
    a name has the empty name. *)
Definition name_hit (query : string) (p : product) : bool :=
  match Dict.get_default p "product_name" (JStr EmptyString) with
  | JStr s => Text.contains query (Text.lower s)
  | _ => false
  end.

(** The brand of [p], as text, contains the query, letter case apart. *)
Definition brand_hit (query : string) (p : product) : bool :=
  Text.contains query (brand_text p).

Definition score (query : string) (p : product) : Z :=
  (if name_hit query p then 10 else 0) + (if brand_hit query p then 5 else 0).

Definition kept (query : string) (g : globals) : list product :=
  filter (fun p => 0 <? score query p) (Dict.values (PRODUCTS_MAP g)).


(** The anchor: the id of the first record whose name contains the query. *)
Definition first_name_match (query : string) (items : list (string * product))
  : option string :=
  option_map fst (find (fun item => name_hit query (snd item)) items).

(** The record a recommendation stub leads to: its name through the name
    index, the id found there through the catalog. *)
Definition stub_target (g : globals) (stub : json) : option product :=
  match stub with
  | JObj s =>
      match Dict.get_default s "product_name" JNull with
      | JStr nm =>
          match Dict.get (PRODUCT_NAMES_MAP g) nm with
          | Some pid => Dict.get (PRODUCTS_MAP g) pid
          | None => None
          end
      | _ => None
      end
  | _ => None
  end.

Definition resolved (g : globals) (stubs : list json) : list product :=
  flat_map (fun stub => match stub_target g stub with Some p => [p] | None => [] end)
           stubs.

(** The records recommended for [pid], in the order of its stubs. *)
Definition recommended (g : globals) (pid : string) : list product :=
  match RECOMMENDATIONS g with
  | JObj table =>
      match Dict.get table pid with
      | Some (JArr stubs) => resolved g stubs
      | _ => []
      end
  | _ => []
  end.

(** What follows an empty brand stage: the recommendations of the anchor
    when it is [usable], a key of the table, and they resolve to something;
    the fallback otherwise. *)
Definition after_brand_stage (usable : string -> bool) (query : string)
    (g : globals) : result (list normalized) :=
  match first_name_match query (PRODUCTS_MAP g) with
  | Some pid =>
      if usable pid then
        match recommended g pid with
        | [] => fallback query g
        | results => comprehension normalize_product (firstn 20 results)
        end
      else fallback query g
  | None => fallback query g
  end.

Definition nonempty (s : string) : bool := negb (s =? EmptyString)%string.

(** ** The shape the specification gives the data *)

(** The name of a record, when it has one, is a text. *)
Definition name_is_text (p : product) : bool :=
  match Dict.get_default p "product_name" (JStr EmptyString) with
  | JStr _ => true
  | _ => false
  end.

Definition names_are_text (g : globals) : bool :=
  forallb name_is_text (Dict.values (PRODUCTS_MAP g)).

(** A stub is an object whose name, when it has one, is not a list or an
    object. *)
Definition stub_ok (stub : json) : bool :=
  match stub with
  | JObj s =>
      match Dict.get_default s "product_name" JNull with
      | JArr _ | JObj _ => false
      | _ => true
      end
  | _ => false
  end.

Definition entry_ok (entry : json) : bool :=
  match entry with
  | JArr stubs => forallb stub_ok stubs
  | _ => false
  end.

(** The recommendation table maps ids to lists of stubs. *)
Definition table_ok (recs : json) : bool :=
  match recs with
  | JObj table => forallb entry_ok (Dict.values table)
  | _ => false
  end.

(** ** Sample data *)

Module Sample.

Definition shoe (k : Z) (label brand_name : string) : json :=
  JObj [("product_id", JInt k);
        ("product_name", JStr label);
        ("Brand", JStr brand_name);
        ("actual_price", JStr "10");
        ("discounted_price", JStr "7.5")].

Definition in_dir (matrix hybrid : file) : directory :=
  fun fname =>
    if (fname =? "product_matrix.json")%string then matrix
    else if (fname =? "precomputed_hybrid.json")%string then hybrid
    else Absent.

(** The catalog of the specification's example, with one recommendation. *)
Definition shop : directory :=
  in_dir
    (Holds (JObj [("1", shoe 1 "Red Shoe" "Acme");
                  ("2", shoe 2 "Blue Shoe" "Acme");
                  ("3", shoe 3 "Acme Hat" "Bolt")]))
    (Holds (JObj [("3", JArr [JObj [("product_name", JStr "Blue Shoe")];
                              JObj [("product_name", JStr "Green Shoe")]])])).

(** Twenty-five records of one brand. *)
Definition crowd : directory :=
  in_dir
    (Holds (JArr (map (fun k => shoe (Z.of_nat k) ("Boot " ++ PyStr.of_int (Z.of_nat k)) "Acme")
                      (seq 1 25))))
    Absent.

(** One record without any id field, one whose id is [null]. *)
Definition lamp : product := [("product_name", JStr "Lamp"); ("Brand", JStr "Lumen")].
Definition ghost : product := [("product_id_numeric", JNull); ("product_name", JStr "Ghost")].

Definition unnumbered : directory :=
  in_dir (Holds (JArr [JObj lamp; JObj ghost])) Absent.

(** A record without a brand field. *)
Definition bare_lamp : product := [("product_id", JInt 1); ("product_name", JStr "Lamp")].

Definition brandless : directory := in_dir (Holds (JArr [JObj bare_lamp])) Absent.

(** A record whose name is a number. *)
Definition misnamed : directory :=
  in_dir (Holds (JArr [JObj [("product_id", JInt 1); ("product_name", JInt 5)]])) Absent.


(** A record whose id is the empty text, with recommendations of its own. *)
Definition plain_shoe : product := [("product_id", JStr EmptyString); ("product_name", JStr "Shoe")].
Definition plain_hat : product := [("product_id", JInt 2); ("product_name", JStr "Hat")].

Definition unlabelled : directory :=
  in_dir
    (Holds (JArr [JObj plain_shoe; JObj plain_hat]))
    (Holds (JObj [(EmptyString, JArr [JObj [("product_name", JStr "Hat")]])])).

(** Records that a query for oak scores 10, 5, 15, 10, 0 and 5. *)
Definition item (k : Z) (label brand_name : string) : product :=
  [("product_id", JInt k); ("product_name", JStr label); ("Brand", JStr brand_name)].

Definition timber : directory :=
  in_dir
    (Holds (JArr [JObj (item 1 "Oak Desk" "Pine");
                  JObj (item 2 "Chair" "Oakline");
                  JObj (item 3 "Oak Shelf" "Oakline");
                  JObj (item 4 "Oak Stool" "Pine");
                  JObj (item 5 "Lamp" "Birch");
                  JObj (item 6 "Table" "Oakline")]))
    Absent.

End Sample.

(** ** Vocabulary for the loader *)

(** The directory [dir] with [f] under the name [fname]. *)
Definition with_file (dir : directory) (fname : string) (f : file) : directory :=
  fun n => if (n =? fname)%string then f else dir n.

(** The globals after the loop of [load_data] has run over [items], from
    empty maps. *)
Definition index_all (items : list json) : globals :=
  snd (Proc.for_each items index_item no_data).

(** The second half of [load_data], on the recommendation file [f]. *)
Definition then_recommendations (f : file) (g : globals) : globals :=
  snd ((if exists_ f then load_recommendations f else Proc.ret tt) g).

Definition is_text_item (item : json) : bool :=
  match item with
  | JStr _ => true
  | _ => false
  end.

(** An element of the matrix that is neither a record nor a text. *)
Definition is_foreign_item (item : json) : bool :=
  match item with
  | JStr _ | JObj _ => false
  | _ => true
  end.

(** The key a record gets in the name index. *)
Definition name_key (p : product) : string :=
  match Dict.get_default p "product_name" (JStr EmptyString) with
  | JStr s => Text.strip s
  | _ => EmptyString
  end.

(** A record that the loop stores in both maps. *)
Definition loadable (p : product) : bool :=
  name_is_text p && negb (derived_id p =? "None")%string.

(** No two bindings of either map share a key. *)
Definition keys_unique (g : globals) : Prop :=
  NoDup (Dict.keys (PRODUCTS_MAP g)) /\ NoDup (Dict.keys (PRODUCT_NAMES_MAP g)).

(** Every record with a text for a name has its name in the index. *)
Definition index_complete (g : globals) : Prop :=
  forall pid p,
    In (pid, p) (PRODUCTS_MAP g) ->
    name_is_text p = true ->
    Dict.mem (PRODUCT_NAMES_MAP g) (name_key p) = true.

(** The recommendations are still the empty table. *)
Definition no_recommendations (g : globals) : Prop := RECOMMENDATIONS g = JObj [].


(** An element at which the loop of [load_data] raises: anything but a
    record or a text, and a record with a usable id whose name is not a
    text. *)
Definition ends_load (item : json) : bool :=
  match item with
  | JStr _ => false
  | JObj p => negb (derived_id p =? "None")%string && negb (name_is_text p)
  | _ => true
  end.

Definition passes_load (item : json) : bool := negb (ends_load item).

Definition matrix_of (dir : directory) (items : list json) : directory :=
  with_file dir "product_matrix.json" (Holds (JArr items)).


(** An element of the matrix that the loop passes without raising and that
    leaves the names of the catalog texts: a text, or a record whose name is
    a text or is missing. *)
Definition well_formed_item (item : json) : bool :=
  match item with
  | JStr _ => true
  | JObj p => name_is_text p
  | _ => false
  end.

(** * Accounts and sessions

    The routes [signup], [login], [logout] and [home].  The table [users] is
    the list of its rows, in the order they were added; a query
    [filter(...).first()] is the first row that fits.  What the routes take
    from outside is a parameter: the two hashing functions of werkzeug (the
    salt that [generate_password_hash] draws is its second argument) and the
    key the database gives a new row; the database is taken to answer every
    query and to commit.  The session is the value, if any, under its one
    key [user_id]. *)

Module User.
Record t : Type := {
  id : Z;
  name : string;
  email : string;
  password_hash : string
}.
End User.

Record services : Type := {
  generate_password_hash : string -> string -> string;
  check_password_hash : string -> string -> bool;
  assign_id : list User.t -> Z
}.

Module SignupIn.
Record t : Type := { name : string; email : string; password : string }.
End SignupIn.

Module LoginIn.
Record t : Type := { email : string; password : string }.
End LoginIn.

(** The table and the session of the client that calls. *)
Record world : Type := {
  users : list User.t;
  session_user_id : option Z
}.

(** What a route answers: the status [success], with the user name when the
    route gives one, or an error with its HTTP status and message. *)
Inductive reply : Type :=
| Succeeded (user : option string)
| Failed (status_code : Z) (message : string).

(** [db.query(User).filter(User.email == email).first()] *)
Definition first_by_email (address : string) (db : list User.t) : option User.t :=
  find (fun u => (User.email u =? address)%string) db.

(** [db.query(User).filter(User.id == user_id).first()] *)
Definition first_by_id (key : Z) (db : list User.t) : option User.t :=
  find (fun u => User.id u =? key) db.

Definition signup (sv : services) (payload : SignupIn.t) (salt : string)
    (w : world) : reply * world :=
  match first_by_email (SignupIn.email payload) (users w) with
  | Some _ => (Failed 400 "Email already registered", w)
  | None =>
      let hashed_pw := generate_password_hash sv (SignupIn.password payload) salt in
      let new_user :=
        {| User.id := assign_id sv (users w);
           User.name := SignupIn.name payload;
           User.email := SignupIn.email payload;
           User.password_hash := hashed_pw |} in
      (Succeeded (Some (User.name new_user)),
       {| users := (users w ++ [new_user])%list;
          session_user_id := Some (User.id new_user) |})
  end.

Definition login (sv : services) (payload : LoginIn.t) (w : world) : reply * world :=
  match first_by_email (LoginIn.email payload) (users w) with
  | Some user =>
      if check_password_hash sv (User.password_hash user) (LoginIn.password payload)
      then (Succeeded (Some (User.name user)),
            {| users := users w; session_user_id := Some (User.id user) |})
      else (Failed 401 "Invalid email or password", w)
  | None => (Failed 401 "Invalid email or password", w)
  end.

Definition logout (w : world) : reply * world :=
  (Succeeded None, {| users := users w; session_user_id := None |}).

(** The [user_name] that [home] hands to the template. *)
Definition home (w : world) : option string :=
  match session_user_id w with
  | Some key =>
      if key =? 0 then None
      else option_map User.name (first_by_id key (users w))
  | None => None
  end.

(** The constraints of the table: keys differ and are not 0, addresses
    differ. *)
Definition table_sound (db : list User.t) : Prop :=
  NoDup (map User.id db) /\
  Forall (fun u => User.id u <> 0) db /\
  NoDup (map User.email db).

(** Services for the examples: the hash is the password behind a dollar
    sign, the key one more than the largest in use. *)
Module Demo.

Definition largest_id (db : list User.t) : Z :=
  fold_right (fun u m => Z.max (User.id u) m) 0 db.

Fixpoint after_dollar (h : string) : string :=
  match h with
  | EmptyString => EmptyString
  | String c r => if (c =? "$")%char then r else after_dollar r
  end.

Definition sv : services :=
  {| generate_password_hash := fun password _ => "$" ++ password;
     check_password_hash := fun h password => (after_dollar h =? password)%string;
     assign_id := fun db => largest_id db + 1 |}.

Definition ann : SignupIn.t :=
  {| SignupIn.name := "Ann"; SignupIn.email := "ann@example.org"; SignupIn.password := "tulip" |}.

Definition ann_login : LoginIn.t :=
  {| LoginIn.email := "ann@example.org"; LoginIn.password := "tulip" |}.

Definition nobody : world := {| users := []; session_user_id := None |}.

End Demo.


(** ** Brands, as the specification reads them

    The brand of a record is the text of its [Brand] field, letter case
    apart; a record without the field, or whose field is not a text, has no
    brand and matches no query by it. *)

Definition brand_field (p : product) : option string :=
  match Dict.get p "Brand" with
  | Some (JStr b) => Some (Text.lower b)
  | _ => None
  end.

Definition has_brand (p : product) : bool :=
  match brand_field p with
  | Some _ => true
  | None => false
  end.

(** Every record of the catalog has a brand. *)
Definition brands_are_text (g : globals) : bool :=
  forallb has_brand (Dict.values (PRODUCTS_MAP g)).

(** The brand of [p] is the query. *)
Definition brand_equals (query : string) (p : product) : bool :=
  match brand_field p with
  | Some b => (b =? query)%string
  | None => false
  end.




(** ** More sample data *)

Module Fixture.

(** A record whose brand is the text [None] and one without a brand whose
    name contains that word. *)
Definition crate : product :=
  [("product_id", JInt 1); ("product_name", JStr "Crate"); ("Brand", JStr "None")].
Definition odd_lamp : product :=
  [("product_id", JInt 2); ("product_name", JStr "None such lamp")].

Definition none_brand : directory :=
  Sample.in_dir (Holds (JArr [JObj crate; JObj odd_lamp])) Absent.

(** Two branded records, the first under the empty id, which has a
    recommendation of its own. *)
Definition shoe : product :=
  [("product_id", JStr EmptyString); ("product_name", JStr "Shoe"); ("Brand", JStr "Acme")].


(** A branded record with a name, then a branded record whose name is a
    number: the anchor is found before the second is looked at. *)
Definition lamp : product := Sample.item 1 "Lamp" "Lumen".


End Fixture.


(** * Properties *)

(** ** Results and comprehensions *)

Lemma bind_ok {A B : Type} (r : result A) (k : A -> result B) (b : B) :
  bind r k = Ok b -> exists a, r = Ok a /\ k a = Ok b.
Proof.
  destruct r as [a | e]; simpl; intros H.
  - exists a; split; [reflexivity | exact H].
  - discriminate H.
Qed.

Section Comprehension.
Context {A B : Type}.
Variable f : A -> result B.

Lemma comprehension_length (l : list A) (ys : list B) :
  comprehension f l = Ok ys -> List.length ys = List.length l.
Proof.
  revert ys; induction l as [| x l IH]; simpl; intros ys H.
  - injection H as <-; reflexivity.
  - apply bind_ok in H as (y & _ & H).
    apply bind_ok in H as (ys' & Hys & H).
    injection H as <-; simpl; f_equal; apply IH; exact Hys.
Qed.

Lemma comprehension_Forall2 (l : list A) (ys : list B) :
  comprehension f l = Ok ys -> Forall2 (fun x y => f x = Ok y) l ys.
Proof.
  revert ys; induction l as [| x l IH]; simpl; intros ys H.
  - injection H as <-; constructor.
  - apply bind_ok in H as (y & Hy & H).
    apply bind_ok in H as (ys' & Hys & H).
    injection H as <-; constructor; [exact Hy | apply IH; exact Hys].
Qed.

Hypothesis f_total : forall x, returns (f x).

Lemma comprehension_total (l : list A) : returns (comprehension f l).
Proof.
  induction l as [| x l [ys IH]]; simpl.
  - exists []; reflexivity.
  - destruct (f_total x) as [y Hy]; rewrite Hy; simpl.
    rewrite IH; simpl; exists (y :: ys); reflexivity.
Qed.
End Comprehension.

(** ** Text *)

Lemma isspace_lower_char (c : ascii) :
  Text.isspace (Text.lower_char c) = Text.isspace c.
Proof.
  destruct c as [[] [] [] [] [] [] [] []]; reflexivity.
Qed.

Lemma all_space_lower (s : string) :
  Text.all_chars Text.isspace s = true ->
  Text.all_chars Text.isspace (Text.lower s) = true.
Proof.
  induction s as [| c s IH]; simpl; [trivial |].
  rewrite isspace_lower_char.
  intros H; apply andb_true_iff in H as [Hc Hs].
  rewrite Hc; simpl; apply IH; exact Hs.
Qed.

Lemma lstrip_all_space (s : string) :
  Text.all_chars Text.isspace s = true -> Text.lstrip s = EmptyString.
Proof.
  induction s as [| c s IH]; simpl; [trivial |].
  intros H; apply andb_true_iff in H as [Hc Hs].
  rewrite Hc; apply IH; exact Hs.
Qed.

Lemma strip_all_space (s : string) :
  Text.all_chars Text.isspace s = true -> Text.strip s = EmptyString.
Proof.
  intros H; unfold Text.strip; rewrite (lstrip_all_space s H); reflexivity.
Qed.

Lemma contains_empty_hay (needle : string) :
  needle <> EmptyString -> Text.contains needle EmptyString = false.
Proof.
  destruct needle; simpl; [intros H; contradiction H; reflexivity | trivial].
Qed.

(** ** [normalize_product] ends normally *)

Lemma normalize_product_total (p : product) : returns (normalize_product p).
Proof.
  unfold normalize_product, returns.
  destruct (Py.float (Dict.get_default p "actual_price" (JInt 0))) as [f | e];
    simpl;
    (destruct (Dict.get p "discounted_price") as [v |];
     [destruct (Py.float v) as [f' | e'] |]); simpl; eexists; reflexivity.
Qed.

Lemma normalized_list (l : list product) :
  exists ns, comprehension normalize_product l = Ok ns /\ Forall2 normalizes l ns.
Proof.
  destruct (comprehension_total normalize_product normalize_product_total l)
    as [ns Hns].
  exists ns; split; [exact Hns |].
  apply (comprehension_Forall2 normalize_product); exact Hns.
Qed.

(** ** The normaliser's prices *)

(** C7. [normalize_product] ends normally on every record.  Its list price
    is the parsed [actual_price], or 0.0 when the field is absent or does not
    parse; its discounted price is the parsed [discounted_price], or the list
    price just found when the field is absent or does not parse. *)
Theorem normalize_product_prices (p : product) :
  exists n,
    normalize_product p = Ok n /\
    prices n = parsed_or (Dict.get p "actual_price") PyFloat.zero /\
    discounted_price n = parsed_or (Dict.get p "discounted_price") (prices n).
Proof.
  unfold normalize_product, parsed_or, Dict.get_default.
  destruct (Dict.get p "actual_price") as [v |].
  - destruct (Py.float v) as [f | e]; simpl;
      (destruct (Dict.get p "discounted_price") as [w |];
       [destruct (Py.float w) as [f' | e'] |]); simpl;
      eexists; repeat split; reflexivity.
  - simpl.
    destruct (Dict.get p "discounted_price") as [w |];
      [destruct (Py.float w) as [f' | e'] |]; simpl;
      eexists; repeat split; reflexivity.
Qed.

(** ** The size of a search result *)

(** C8. Whatever the query and the state, a sequence returned by
    [search_products] has at most 20 elements. *)
Theorem search_at_most_20 (q : option string) (g : globals) (l : list normalized) :
  search_products q g = Ok l -> (List.length l <= 20)%nat.
Proof.
  unfold search_products, fallback.
  destruct (query_of q =? EmptyString)%string.
  - intros H; injection H as <-; simpl; lia.
  - destruct (brand_search (query_of q) g) as [| b bs] eqn:Hb.
    + intros H.
      apply bind_ok in H as (a & _ & H).
      apply bind_ok in H as (s2 & _ & H).
      destruct s2 as [results |].
      * apply comprehension_length in H; rewrite H.
        apply firstn_le_length.
      * apply bind_ok in H as (scored & _ & H).
        apply comprehension_length in H; rewrite H, length_map.
        apply firstn_le_length.
    + intros H.
      apply comprehension_length in H; rewrite H.
      apply firstn_le_length.
Qed.

Lemma search_at_most_20_witness :
  exists l, search_products (Some "acme") (loaded (Some Sample.crowd)) = Ok l /\
            (List.length l <= 20)%nat.
Proof.
  eexists; split.
  - vm_compute; reflexivity.
  - apply (search_at_most_20 (Some "acme") (loaded (Some Sample.crowd))).
    vm_compute; reflexivity.
Defined.

(** The bound is reached: twenty-five records match, twenty are returned. *)
Example crowd_is_cut :
  List.length (brand_search "acme" (loaded (Some Sample.crowd))) = 25%nat /\
  exists l, search_products (Some "acme") (loaded (Some Sample.crowd)) = Ok l /\
            List.length l = 20%nat.
Proof.
  split; [vm_compute; reflexivity |].
  eexists; split; vm_compute; reflexivity.
Qed.

(** ** Blank queries *)

(** C9. For a query that is absent, empty or white space only,
    [search_products] returns the empty list whatever the state is, also
    where a stage would raise on it. *)
Theorem search_blank (q : option string) (g : globals) :
  blank q = true -> search_products q g = Ok [].
Proof.
  intros Hq.
  assert (Hquery : query_of q = EmptyString).
  { unfold query_of; destruct q as [s |]; simpl in *.
    - apply strip_all_space, all_space_lower; exact Hq.
    - reflexivity. }
  unfold search_products; rewrite Hquery; reflexivity.
Qed.

Lemma search_blank_witness :
  blank (Some "   ") = true /\
  search_products (Some "   ") (loaded (Some Sample.shop)) = Ok [].
Proof.
  split; [reflexivity |].
  apply (search_blank (Some "   ") (loaded (Some Sample.shop))); reflexivity.
Defined.

(** ** Dictionaries *)

Section DictFacts.
Context {V : Type}.
Implicit Types (d : Dict.t V) (k : string) (v : V).

Lemma get_set d k v k' :
  Dict.get (Dict.set d k v) k' =
  if (k =? k')%string then Some v else Dict.get d k'.
Proof.
  induction d as [| [k0 v0] d IH]; simpl.
  - reflexivity.
  - destruct (k0 =? k)%string eqn:E0; simpl.
    + apply String.eqb_eq in E0; subst k0.
      destruct (k =? k')%string; reflexivity.
    + destruct (k0 =? k')%string eqn:E1.
      * apply String.eqb_eq in E1; subst k0.
        rewrite String.eqb_sym, E0; reflexivity.
      * exact IH.
Qed.

Lemma in_set d k v k' v' :
  In (k', v') (Dict.set d k v) -> (k' = k /\ v' = v) \/ In (k', v') d.
Proof.
  induction d as [| [k0 v0] d IH]; simpl.
  - intros [H | []]; injection H as <- <-; left; split; reflexivity.
  - destruct (k0 =? k)%string; simpl.
    + intros [H | H]; [injection H as <- <-; left; split; reflexivity |].
      right; right; exact H.
    + intros [H | H]; [right; left; exact H |].
      destruct (IH H) as [? | ?]; [left | right; right]; assumption.
Qed.

Lemma get_in d k v : Dict.get d k = Some v -> In (k, v) d.
Proof.
  induction d as [| [k0 v0] d IH]; simpl; [discriminate |].
  destruct (k0 =? k)%string eqn:E.
  - apply String.eqb_eq in E; subst k0.
    intros H; injection H as <-; left; reflexivity.
  - intros H; right; apply IH; exact H.
Qed.

Lemma mem_get d k : Dict.mem d k = true -> exists v, Dict.get d k = Some v.
Proof.
  unfold Dict.mem; destruct (Dict.get d k) as [v |]; [| discriminate].
  intros _; exists v; reflexivity.
Qed.

Lemma mem_set d k v k' :
  Dict.mem d k' = true -> Dict.mem (Dict.set d k v) k' = true.
Proof.
  unfold Dict.mem; rewrite get_set.
  destruct (k =? k')%string; trivial.
Qed.

Lemma mem_set_same d k v : Dict.mem (Dict.set d k v) k = true.
Proof.
  unfold Dict.mem; rewrite get_set, String.eqb_refl; reflexivity.
Qed.

Lemma in_values d v : In v (Dict.values d) -> exists k, In (k, v) d.
Proof.
  unfold Dict.values; intros H.
  apply in_map_iff in H as ([k v0] & Hv & Hin); simpl in Hv; subst v0.
  exists k; exact Hin.
Qed.
End DictFacts.

(** ** Procedures and what they keep *)

Section Preservation.
Variable I : globals -> Prop.

Lemma preserves_ret {A : Type} (a : A) : preserves I (Proc.ret a).
Proof. intros g Hg; exact Hg. Qed.

Lemma preserves_lift {A : Type} (r : result A) : preserves I (Proc.lift r).
Proof. intros g Hg; exact Hg. Qed.

Lemma preserves_bind {A B : Type} (c : proc A) (k : A -> proc B) :
  preserves I c -> (forall a, preserves I (k a)) -> preserves I (Proc.bind c k).
Proof.
  intros Hc Hk g Hg; unfold Proc.bind.
  specialize (Hc g Hg).
  destruct (c g) as [[a | e] g']; simpl in *; [apply Hk; exact Hc | exact Hc].
Qed.

Lemma preserves_try (body : proc unit) (handler : exn -> proc unit) :
  preserves I body -> (forall e, preserves I (handler e)) ->
  preserves I (Proc.try_except body handler).
Proof.
  intros Hb Hh g Hg; unfold Proc.try_except.
  specialize (Hb g Hg).
  destruct (body g) as [[a | e] g']; simpl in *; [exact Hb | apply Hh; exact Hb].
Qed.

Lemma preserves_for_each {A : Type} (l : list A) (body : A -> proc unit) :
  (forall x, preserves I (body x)) -> preserves I (Proc.for_each l body).
Proof.
  intros Hb; induction l as [| x l IH]; simpl.
  - apply preserves_ret.
  - apply preserves_bind; [apply Hb | intros _; exact IH].
Qed.
End Preservation.

(** ** What [load_data] establishes *)

Lemma load_inv_no_data : load_inv no_data.
Proof.
  split.
  - intros nm pid H; discriminate H.
  - intros pid p [].
Qed.

Lemma index_item_keeps_inv (item : json) : preserves load_inv (index_item item).
Proof.
  intros g [Hsound Hfiled].
  destruct item as [| b | z | f | s | l | p]; simpl; try (split; assumption).
  destruct (negb (derived_id p =? "None")%string) eqn:Hid; [| split; assumption].
  apply negb_true_iff, String.eqb_neq in Hid.
  assert (Hfiled' : forall pid q,
             In (pid, q) (Dict.set (PRODUCTS_MAP g) (derived_id p) p) ->
             derived_id q = pid /\ pid <> "None").
  { intros pid q Hin.
    apply in_set in Hin as [[-> ->] | Hin]; [split; [reflexivity | exact Hid] |].
    apply Hfiled; exact Hin. }
  unfold Proc.bind, set_product, set_name, Proc.modify, Proc.lift; simpl.
  destruct (Py.strip (Dict.get_default p "product_name" (JStr EmptyString)))
    as [nm | e]; simpl.
  - split; simpl.
    + intros nm' pid; simpl; rewrite get_set.
      destruct (nm =? nm')%string.
      * intros H; injection H as <-; apply mem_set_same.
      * intros H; apply mem_set, (Hsound nm'); exact H.
    + exact Hfiled'.
  - split; simpl.
    + intros nm' pid H; apply mem_set, (Hsound nm'); exact H.
    + exact Hfiled'.
Qed.

Lemma load_data_establishes_inv (fs : option directory) (g0 : globals) :
  load_inv (snd (load_data fs g0)).
Proof.
  unfold load_data, Proc.bind at 1, Proc.modify; simpl.
  generalize load_inv_no_data; generalize no_data; intros g Hg.
  destruct fs as [dir |]; [| exact Hg].
  revert g Hg; change (preserves load_inv
    (Proc.bind
       match find (fun fname => exists_ (dir fname)) possible_filenames with
       | Some fname => load_matrix (dir fname)
       | None => Proc.ret tt
       end
       (fun _ => if exists_ (dir "precomputed_hybrid.json")
                 then load_recommendations (dir "precomputed_hybrid.json")
                 else Proc.ret tt))).
  apply preserves_bind.
  - destruct (find _ possible_filenames) as [fname |]; [| apply preserves_ret].
    apply preserves_try; [| intros e; apply preserves_ret].
    apply preserves_bind; [apply preserves_lift |].
    intros raw; apply preserves_for_each; intros item.
    apply index_item_keeps_inv.
  - intros _.
    destruct (exists_ (dir "precomputed_hybrid.json")); [| apply preserves_ret].
    apply preserves_try; [| intros e; apply preserves_ret].
    apply preserves_bind; [apply preserves_lift |].
    intros r g [Hs Hf]; split; assumption.
Qed.

(** C10. After [load_data], every id found in the name index is a key of
    the catalog, so the chained look-up of stage 2 finds a record for every
    name the index holds. *)
Theorem index_within_catalog (fs : option directory) (g0 : globals)
    (nm pid : string) :
  let g := snd (load_data fs g0) in
  Dict.get (PRODUCT_NAMES_MAP g) nm = Some pid ->
  exists p,
    Dict.get (PRODUCTS_MAP g) pid = Some p /\
    chained_lookup g (JStr nm) = Ok p.
Proof.
  intros g Hnm.
  destruct (load_data_establishes_inv fs g0) as [Hsound _].
  fold g in Hsound.
  destruct (mem_get _ _ (Hsound nm pid Hnm)) as [p Hp].
  exists p; split; [exact Hp |].
  unfold chained_lookup, Py.key_item, Dict.item.
  rewrite Hnm; simpl; rewrite Hp; reflexivity.
Qed.

Lemma index_within_catalog_witness :
  Dict.get (PRODUCT_NAMES_MAP (loaded (Some Sample.shop))) "Blue Shoe" = Some "2" /\
  exists p,
    Dict.get (PRODUCTS_MAP (loaded (Some Sample.shop))) "2" = Some p /\
    chained_lookup (loaded (Some Sample.shop)) (JStr "Blue Shoe") = Ok p.
Proof.
  split; [reflexivity |].
  apply (index_within_catalog (Some Sample.shop) no_data "Blue Shoe" "2").
  reflexivity.
Defined.

(** ** Records without a usable id *)

(** C4, as the specification has it, fails: a record with neither id field
    gets the id [N/A] and is stored under it, in both maps. *)
Lemma unnumbered_record_is_loaded :
  let g := loaded (Some Sample.unnumbered) in
  derived_id Sample.lamp = "N/A" /\
  Dict.get (PRODUCTS_MAP g) "N/A" = Some Sample.lamp /\
  Dict.get (PRODUCT_NAMES_MAP g) "Lamp" = Some "N/A".
Proof.
  repeat split; reflexivity.
Qed.

(** C4, amended. After [load_data], a record whose derived id reads [None]
    is not in the catalog, no catalog key is [None] and the name index
    leads to no such id. *)
Theorem none_id_not_loaded (fs : option directory) (g0 : globals) :
  let g := snd (load_data fs g0) in
  (forall p, derived_id p = "None" -> ~ In p (Dict.values (PRODUCTS_MAP g))) /\
  Dict.mem (PRODUCTS_MAP g) "None" = false /\
  (forall nm, Dict.get (PRODUCT_NAMES_MAP g) nm <> Some "None").
Proof.
  intros g.
  destruct (load_data_establishes_inv fs g0) as [Hsound Hfiled].
  fold g in Hsound, Hfiled.
  assert (Hkey : Dict.mem (PRODUCTS_MAP g) "None" = false).
  { destruct (Dict.mem (PRODUCTS_MAP g) "None") eqn:E; [| reflexivity].
    apply mem_get in E as [p Hp]; apply get_in in Hp.
    destruct (Hfiled _ _ Hp) as [_ Hne]; contradiction Hne; reflexivity. }
  repeat split.
  - intros p Hid Hin.
    apply in_values in Hin as [pid Hin].
    destruct (Hfiled _ _ Hin) as [Heq Hne].
    apply Hne; rewrite <- Heq; exact Hid.
  - exact Hkey.
  - intros nm Hnm.
    rewrite (Hsound nm "None" Hnm) in Hkey; discriminate Hkey.
Qed.

Lemma none_id_not_loaded_witness :
  derived_id Sample.ghost = "None" /\
  ~ In Sample.ghost (Dict.values (PRODUCTS_MAP (loaded (Some Sample.unnumbered)))).
Proof.
  split; [reflexivity |].
  apply (none_id_not_loaded (Some Sample.unnumbered) no_data); reflexivity.
Defined.

(** ** The stable sort *)

Section Sorting.
Context {A : Type}.
Variable key : A -> Z.

Lemma insert_desc_perm (x : A) (l : list A) :
  Permutation (insert_desc key x l) (x :: l).
Proof.
  induction l as [| y l IH]; simpl; [apply Permutation_refl |].
  destruct (key x <? key y).
  - apply perm_trans with (y :: x :: l); [apply perm_skip, IH | apply perm_swap].
  - apply Permutation_refl.
Qed.

Lemma sort_desc_perm (l : list A) : Permutation (sort_desc key l) l.
Proof.
  induction l as [| x l IH]; simpl; [apply perm_nil |].
  apply perm_trans with (x :: sort_desc key l);
    [apply insert_desc_perm | apply perm_skip, IH].
Qed.





(** Sorting pairs by a key stored in them sorts what they carry. *)
Lemma sort_desc_tagged (l : list A) :
  map snd (sort_desc fst (map (fun a => (key a, a)) l)) = sort_desc key l.
Proof.
  assert (Hins : forall x l',
             insert_desc fst (key x, x) (map (fun a => (key a, a)) l') =
             map (fun a => (key a, a)) (insert_desc key x l')).
  { intros x l'; induction l' as [| y l' IH]; simpl; [reflexivity |].
    destruct (key x <? key y); simpl; [rewrite IH |]; reflexivity. }
  assert (Hsort : sort_desc fst (map (fun a => (key a, a)) l) =
                  map (fun a => (key a, a)) (sort_desc key l)).
  { induction l as [| x l IH]; simpl; [reflexivity |].
    rewrite IH; apply Hins. }
  rewrite Hsort, map_map; simpl; apply map_id.
Qed.
End Sorting.

(** ** The stages on data of the specified shape *)

Lemma name_matches_text (query : string) (p : product) :
  name_is_text p = true -> name_matches query p = Ok (name_hit query p).
Proof.
  unfold name_is_text, name_matches, name_hit.
  destruct (Dict.get_default p "product_name" (JStr EmptyString));
    try discriminate; reflexivity.
Qed.

Lemma find_anchor_text (query : string) (items : list (string * product)) :
  forallb name_is_text (map snd items) = true ->
  find_anchor query items = Ok (first_name_match query items).
Proof.
  unfold first_name_match.
  induction items as [| [pid p] items IH]; simpl; [reflexivity |].
  intros H; apply andb_true_iff in H as [Hp Hrest].
  rewrite (name_matches_text query p Hp); simpl.
  destruct (name_hit query p); [reflexivity | apply IH; exact Hrest].
Qed.

Lemma score_of_text (query : string) (p : product) :
  name_is_text p = true -> score_of query p = Ok (score query p).
Proof.
  intros Hp; unfold score_of, score, brand_hit.
  rewrite (name_matches_text query p Hp); simpl.
  destruct (name_hit query p), (Text.contains query (brand_text p)); reflexivity.
Qed.

Lemma scoring_text (query : string) (items : list (string * product))
    (scored : list (Z * product)) :
  forallb name_is_text (map snd items) = true ->
  scoring query items scored =
  Ok (scored ++ map (fun p => (score query p, p))
                    (filter (fun p => 0 <? score query p) (map snd items)))%list.
Proof.
  revert scored; induction items as [| [pid p] items IH]; simpl; intros scored H.
  - rewrite app_nil_r; reflexivity.
  - apply andb_true_iff in H as [Hp Hrest].
    rewrite (score_of_text query p Hp); simpl.
    rewrite (IH _ Hrest).
    destruct (0 <? score query p); simpl; [rewrite <- app_assoc |]; reflexivity.
Qed.

Lemma fallback_text (query : string) (g : globals) :
  names_are_text g = true ->
  fallback query g =
  comprehension normalize_product
    (firstn 20 (sort_desc (score query) (kept query g))).
Proof.
  intros H; unfold fallback.
  rewrite (scoring_text query (PRODUCTS_MAP g) [] H).
  unfold bind; rewrite app_nil_l, <- firstn_map.
  rewrite (sort_desc_tagged (score query)); reflexivity.
Qed.

Lemma resolve_shaped (g : globals) (stubs : list json) (results : list product) :
  index_sound g ->
  forallb stub_ok stubs = true ->
  resolve g stubs results = Ok (results ++ resolved g stubs)%list.
Proof.
  intros Hsound; revert results.
  induction stubs as [| stub stubs IH]; simpl; intros results H.
  - rewrite app_nil_r; reflexivity.
  - apply andb_true_iff in H as [Hstub Hrest].
    assert (Hstep : resolve_stub g results stub =
                    Ok (results ++ match stub_target g stub with
                                   | Some p => [p]
                                   | None => []
                                   end)%list).
    { unfold resolve_stub, stub_target.
      destruct stub as [| | | | | | s]; try discriminate Hstub; simpl in *.
      destruct (Dict.get_default s "product_name" JNull) as [| b | z | f | nm | l | d];
        try discriminate Hstub; simpl; try (rewrite app_nil_r; reflexivity).
      unfold Dict.mem, Dict.item.
      destruct (Dict.get (PRODUCT_NAMES_MAP g) nm) as [pid |] eqn:Hnm; simpl;
        [| rewrite app_nil_r; reflexivity].
      destruct (mem_get _ _ (Hsound nm pid Hnm)) as [p Hp].
      rewrite Hp; reflexivity. }
    rewrite Hstep; simpl; rewrite (IH _ Hrest), <- app_assoc; reflexivity.
Qed.

Lemma hybrid_recs_shaped (g : globals) (pid : string) :
  index_sound g ->
  table_ok (RECOMMENDATIONS g) = true ->
  pid <> EmptyString ->
  hybrid_recs g (Some pid) =
  Ok match recommended g pid with
     | [] => None
     | results => Some results
     end.
Proof.
  intros Hsound Htable Hpid.
  unfold hybrid_recs, recommended.
  apply String.eqb_neq in Hpid; rewrite Hpid.
  destruct (RECOMMENDATIONS g) as [| | | | | | table]; try discriminate Htable.
  simpl in *; unfold Dict.mem, Dict.item.
  destruct (Dict.get table pid) as [entry |] eqn:Hentry; simpl; [| reflexivity].
  assert (Hok : entry_ok entry = true).
  { apply (proj1 (forallb_forall _ _) Htable).
    apply get_in in Hentry.
    change entry with (snd (pid, entry)); apply in_map; exact Hentry. }
  destruct entry as [| | | | | stubs |]; try discriminate Hok; simpl in *.
  rewrite (resolve_shaped g stubs [] Hsound Hok); simpl.
  destruct (resolved g stubs); reflexivity.
Qed.

(** From the second stage on, for a query no brand equals. *)
Lemma search_after_brand_stage (q : option string) (g : globals) :
  query_of q <> EmptyString ->
  brand_search (query_of q) g = [] ->
  names_are_text g = true ->
  table_ok (RECOMMENDATIONS g) = true ->
  index_sound g ->
  search_products q g = after_brand_stage nonempty (query_of q) g.
Proof.
  intros Hq Hbrand Hnames Htable Hsound.
  unfold search_products, after_brand_stage.
  apply String.eqb_neq in Hq; rewrite Hq, Hbrand.
  rewrite (find_anchor_text _ _ Hnames); cbn [bind].
  destruct (first_name_match (query_of q) (PRODUCTS_MAP g)) as [pid |];
    [| reflexivity].
  unfold nonempty.
  destruct (pid =? EmptyString)%string eqn:Hpid; cbn [negb].
  - unfold hybrid_recs; rewrite Hpid; reflexivity.
  - apply String.eqb_neq in Hpid.
    rewrite (hybrid_recs_shaped g pid Hsound Htable Hpid); cbn [bind].
    destruct (recommended g pid); reflexivity.
Qed.

(** The stages are not entered: on this catalog a query with a letter in
    it raises in stage 2, a blank one returns. *)
Example blank_query_skips_stages :
  search_products (Some "lamp") (loaded (Some Sample.misnamed)) = Raise AttributeError /\
  search_products (Some " ") (loaded (Some Sample.misnamed)) = Ok [] /\
  search_products None (loaded (Some Sample.misnamed)) = Ok [].
Proof. repeat split; vm_compute; reflexivity. Qed.

(** ** The stages, read off a search that returns *)

Lemma brand_text_of_text (p : product) (b : string) :
  Dict.get p "Brand" = Some (JStr b) -> brand_text p = Text.lower b.
Proof.
  intros H; unfold brand_text, Dict.get_default; rewrite H; reflexivity.
Qed.

Lemma brand_text_of_field (p : product) :
  has_brand p = true -> brand_field p = Some (brand_text p).
Proof.
  unfold has_brand, brand_field.
  destruct (Dict.get p "Brand") as [[| | | | b | |] |] eqn:E; try discriminate.
  intros _; rewrite (brand_text_of_text p b E); reflexivity.
Qed.

Lemma brand_search_by_field (query : string) (g : globals) :
  brands_are_text g = true ->
  brand_search query g = filter (brand_equals query) (Dict.values (PRODUCTS_MAP g)).
Proof.
  intros H; unfold brand_search; apply filter_ext_in; intros p Hp.
  unfold brand_equals.
  rewrite (brand_text_of_field p (proj1 (forallb_forall _ _) H p Hp)).
  apply String.eqb_sym.
Qed.











(** ** Stage 1: the brand search *)

(** C1. A record without a [Brand] field is taken for one whose brand is the
    text [None]: on a catalog with a crate of the brand [None] and a lamp
    that has no brand and the word in its name, the query [none] returns the
    crate and the lamp with it. *)
Theorem brandless_record_joins_brand_matches :
  let g := loaded (Some Fixture.none_brand) in
  Dict.values (PRODUCTS_MAP g) = [Fixture.crate; Fixture.odd_lamp] /\
  brand_is "none" Fixture.crate /\
  Dict.get Fixture.odd_lamp "Brand" = None /\
  name_matches "none" Fixture.odd_lamp = Ok true /\
  brand_search "none" g = [Fixture.crate; Fixture.odd_lamp] /\
  search_products (Some "none") g =
    comprehension normalize_product [Fixture.crate; Fixture.odd_lamp].
Proof.
  split; [reflexivity |].
  split; [exists "None"; split; reflexivity |].
  repeat split; vm_compute; reflexivity.
Qed.

(** X21. On a catalog in which every record has a text for a brand: when the
    brand of some record is the query, letter case apart, the search does not
    raise and returns the first 20 of the records whose brand is the query,
    in catalog order, normalised, whatever the names, the name index and the
    recommendations hold. *)
Theorem brand_stage_wins (q : option string) (g : globals) :
  query_of q <> EmptyString ->
  brands_are_text g = true ->
  existsb (brand_equals (query_of q)) (Dict.values (PRODUCTS_MAP g)) = true ->
  exists ns,
    search_products q g = Ok ns /\
    Forall2 normalizes
      (firstn 20 (filter (brand_equals (query_of q)) (Dict.values (PRODUCTS_MAP g))))
      ns.
Proof.
  intros Hq Hb Hsome.
  destruct (normalized_list
              (firstn 20 (filter (brand_equals (query_of q))
                                 (Dict.values (PRODUCTS_MAP g)))))
    as (ns & Hns & Hall).
  exists ns; split; [| exact Hall].
  unfold search_products.
  apply String.eqb_neq in Hq; rewrite Hq.
  rewrite (brand_search_by_field _ g Hb).
  destruct (filter (brand_equals (query_of q)) (Dict.values (PRODUCTS_MAP g)))
    as [| p l] eqn:E; [| exact Hns].
  apply existsb_exists in Hsome as (p & Hp & Heq).
  assert (Hin : In p []) by (rewrite <- E; apply filter_In; split; assumption).
  contradiction Hin.
Qed.

Lemma brand_stage_wins_witness :
  exists ns,
    search_products (Some " ACME ") (loaded (Some Sample.shop)) = Ok ns /\
    List.length ns = 2%nat.
Proof.
  destruct (brand_stage_wins (Some " ACME ") (loaded (Some Sample.shop)))
    as (ns & Hsearch & Hall).
  - vm_compute; discriminate.
  - reflexivity.
  - reflexivity.
  - exists ns; split; [exact Hsearch |].
    apply Forall2_length in Hall; rewrite <- Hall; reflexivity.
Defined.

(** The two Acme shoes are returned; the hat, whose name alone contains the
    query, is not. *)
Example acme_hat_is_left_out :
  map name
      match search_products (Some " ACME ") (loaded (Some Sample.shop)) with
      | Ok ns => ns
      | Raise _ => []
      end
  = [JStr "Red Shoe"; JStr "Blue Shoe"].
Proof. vm_compute; reflexivity. Qed.

(** ** Stage 2: the recommendations of the anchor *)




(** The hat's recommendations: the blue shoe resolves, the green one is not
    in the name index and is skipped. *)
Example hat_recommends_blue_shoe :
  map name
      match search_products (Some "hat") (loaded (Some Sample.shop)) with
      | Ok ns => ns
      | Raise _ => []
      end
  = [JStr "Blue Shoe"].
Proof. vm_compute; reflexivity. Qed.

(** ** Stage 3: the fallback ranking *)







(** The example of the specification: no brand is [shoe], the anchor has no
    recommendations, both shoes score 10 and come in catalog order. *)
Example shoe_example :
  map name
      match search_products (Some "shoe") (loaded (Some Sample.shop)) with
      | Ok ns => ns
      | Raise _ => []
      end
  = [JStr "Red Shoe"; JStr "Blue Shoe"].
Proof. vm_compute; reflexivity. Qed.

(** Scores 15, then 10 and 10, then 5 and 5, ties in catalog order. *)
Example timber_ranking :
  map name
      match search_products (Some "Oak") (loaded (Some Sample.timber)) with
      | Ok ns => ns
      | Raise _ => []
      end
  = [JStr "Oak Shelf"; JStr "Oak Desk"; JStr "Oak Stool"; JStr "Chair"; JStr "Table"].
Proof. vm_compute; reflexivity. Qed.

(** ** Records without a brand *)

(** C5. A record without a brand field is compared as if its brand were the
    text [None]: the query [none] selects it in stage 1, and the query [on],
    which its name does not contain, scores it 5 in stage 3 and returns it. *)
Theorem missing_brand_reads_none :
  let g := loaded (Some Sample.brandless) in
  Dict.get Sample.bare_lamp "Brand" = None /\
  Dict.values (PRODUCTS_MAP g) = [Sample.bare_lamp] /\
  brand_search "none" g = [Sample.bare_lamp] /\
  search_products (Some "none") g = comprehension normalize_product [Sample.bare_lamp] /\
  name_matches "on" Sample.bare_lamp = Ok false /\
  score_of "on" Sample.bare_lamp = Ok 5 /\
  search_products (Some "on") g = comprehension normalize_product [Sample.bare_lamp].
Proof.
  repeat split; vm_compute; reflexivity.
Qed.

(** ** Exceptions *)





Lemma search_returns_on_shaped_data (q : option string) (g : globals) :
  names_are_text g = true ->
  table_ok (RECOMMENDATIONS g) = true ->
  index_sound g ->
  returns (search_products q g).
Proof.
  intros Hnames Htable Hsound.
  destruct (query_of q =? EmptyString)%string eqn:Hq.
  - unfold search_products; rewrite Hq; exists []; reflexivity.
  - destruct (brand_search (query_of q) g) as [| b bs] eqn:Hbrand.
    + apply String.eqb_neq in Hq.
      rewrite (search_after_brand_stage q g Hq Hbrand Hnames Htable Hsound).
      unfold after_brand_stage.
      rewrite (fallback_text _ g Hnames).
      destruct (first_name_match (query_of q) (PRODUCTS_MAP g)) as [pid |];
        [destruct (nonempty pid); [destruct (recommended g pid) |] |];
        apply comprehension_total, normalize_product_total.
    + unfold search_products; rewrite Hq, Hbrand.
      apply comprehension_total, normalize_product_total.
Qed.



(** * Further properties of the loader *)

Lemma try_except_unit_state (body : proc unit) (g : globals) :
  Proc.try_except body (fun _ => Proc.ret tt) g = (Ok tt, snd (body g)).
Proof.
  unfold Proc.try_except.
  destruct (body g) as [[[] | e] g']; reflexivity.
Qed.

Lemma load_recommendations_state (f : file) (g : globals) :
  load_recommendations f g =
  (Ok tt,
   match f with
   | Holds r => {| PRODUCTS_MAP := PRODUCTS_MAP g;
                   PRODUCT_NAMES_MAP := PRODUCT_NAMES_MAP g;
                   RECOMMENDATIONS := r |}
   | _ => g
   end).
Proof.
  unfold load_recommendations; rewrite try_except_unit_state.
  destruct f; reflexivity.
Qed.

Lemma then_recommendations_maps (f : file) (g : globals) :
  PRODUCTS_MAP (then_recommendations f g) = PRODUCTS_MAP g /\
  PRODUCT_NAMES_MAP (then_recommendations f g) = PRODUCT_NAMES_MAP g /\
  RECOMMENDATIONS (then_recommendations f g) =
    match f with Holds r => r | _ => RECOMMENDATIONS g end.
Proof.
  unfold then_recommendations.
  destruct f as [| e | r]; simpl; repeat split; reflexivity.
Qed.

(** [load_data] on a directory, in two halves. *)
Lemma loaded_in_two_halves (dir : directory) (g0 : globals) :
  snd (load_data (Some dir) g0) =
  then_recommendations (dir "precomputed_hybrid.json")
    (match find (fun fname => exists_ (dir fname)) possible_filenames with
     | Some fname => snd (load_matrix (dir fname) no_data)
     | None => no_data
     end).
Proof.
  unfold load_data, then_recommendations, Proc.bind at 1, Proc.modify.
  unfold Proc.bind.
  destruct (find (fun fname => exists_ (dir fname)) possible_filenames) as [fname |].
  - unfold load_matrix at 1; rewrite try_except_unit_state.
    unfold load_matrix; rewrite try_except_unit_state; reflexivity.
  - reflexivity.
Qed.

Lemma load_matrix_holds (raw : json) (g : globals) :
  snd (load_matrix (Holds raw) g) =
  snd (Proc.for_each (data_list raw) index_item g).
Proof.
  unfold load_matrix; rewrite try_except_unit_state; reflexivity.
Qed.

Lemma loaded_from_matrix (dir : directory) (raw : json) :
  dir "product_matrix.json" = Holds raw ->
  loaded (Some dir) =
  then_recommendations (dir "precomputed_hybrid.json") (index_all (data_list raw)).
Proof.
  intros H; unfold loaded; rewrite loaded_in_two_halves.
  unfold possible_filenames; cbn [find]; rewrite H; cbn [exists_].
  rewrite H, load_matrix_holds; reflexivity.
Qed.

(** X1. [load_data] starts from empty maps: what it leaves does not depend
    on what the globals held before, and when the data directory is missing
    nothing of it is left. *)
Theorem load_data_forgets (fs : option directory) (g0 g1 : globals) :
  load_data fs g0 = load_data fs g1 /\ snd (load_data None g0) = no_data.
Proof.
  split; [| reflexivity].
  unfold load_data, Proc.bind at 1, Proc.modify.
  unfold Proc.bind at 1, Proc.modify; reflexivity.
Qed.

(** X2. When [product_matrix.json] exists, [product_index_map.json] is not
    looked at, whatever it holds; and if [product_matrix.json] cannot be read
    or parsed, the catalog and the name index stay empty. *)
Theorem first_candidate_decides (dir : directory) (g0 : globals) :
  exists_ (dir "product_matrix.json") = true ->
  (forall f, load_data (Some (with_file dir "product_index_map.json" f)) g0
             = load_data (Some dir) g0) /\
  (forall e, dir "product_matrix.json" = Unreadable e ->
             PRODUCTS_MAP (snd (load_data (Some dir) g0)) = [] /\
             PRODUCT_NAMES_MAP (snd (load_data (Some dir) g0)) = []).
Proof.
  intros Hex; split.
  - intros f; unfold load_data, possible_filenames, with_file; simpl.
    rewrite Hex; reflexivity.
  - intros e He; rewrite loaded_in_two_halves.
    unfold possible_filenames; cbn [find]; rewrite He; cbn [exists_]; rewrite He.
    destruct (then_recommendations_maps (dir "precomputed_hybrid.json")
                (snd (load_matrix (Unreadable e) no_data))) as (Hp & Hn & _).
    rewrite Hp, Hn; split; reflexivity.
Qed.

Lemma first_candidate_decides_witness :
  PRODUCTS_MAP
    (snd (load_data
            (Some (with_file (Sample.in_dir (Unreadable ValueError) Absent)
                     "product_index_map.json"
                     (Holds (JArr [Sample.shoe 1 "Red Shoe" "Acme"]))))
            no_data)) = [].
Proof.
  destruct (first_candidate_decides
              (Sample.in_dir (Unreadable ValueError) Absent) no_data) as [Hsame Hempty].
  - reflexivity.
  - rewrite Hsame; apply (Hempty ValueError); reflexivity.
Defined.

Lemma index_item_keeps_recommendations (item : json) :
  preserves no_recommendations (index_item item).
Proof.
  intros g Hg; unfold no_recommendations in *.
  destruct item as [| b | z | f | s | l | p]; simpl; try exact Hg.
  destruct (negb (derived_id p =? "None")%string); [| exact Hg].
  unfold Proc.bind, set_product, set_name, Proc.modify, Proc.lift; simpl.
  destruct (Py.strip (Dict.get_default p "product_name" (JStr EmptyString)));
    simpl; exact Hg.
Qed.

Lemma load_matrix_keeps_recommendations (f : file) :
  preserves no_recommendations (load_matrix f).
Proof.
  apply preserves_try; [| intros e; apply preserves_ret].
  apply preserves_bind; [apply preserves_lift |].
  intros raw; apply preserves_for_each; intros item.
  apply index_item_keeps_recommendations.
Qed.

(** X3. The two files are loaded independently of each other: the
    recommendations are what [precomputed_hybrid.json] holds, or the empty
    table when it is missing or unreadable, whatever happens to the product
    matrix; and the catalog and the name index do not depend on the
    recommendation file. *)
Theorem two_files_independent (dir : directory) :
  RECOMMENDATIONS (loaded (Some dir)) =
    match dir "precomputed_hybrid.json" with
    | Holds r => r
    | _ => JObj []
    end /\
  forall f,
    PRODUCTS_MAP (loaded (Some (with_file dir "precomputed_hybrid.json" f)))
      = PRODUCTS_MAP (loaded (Some dir)) /\
    PRODUCT_NAMES_MAP (loaded (Some (with_file dir "precomputed_hybrid.json" f)))
      = PRODUCT_NAMES_MAP (loaded (Some dir)).
Proof.
  split.
  - unfold loaded; rewrite loaded_in_two_halves.
    match goal with
    | |- RECOMMENDATIONS (then_recommendations ?f ?m) = _ =>
        destruct (then_recommendations_maps f m) as (_ & _ & Hr);
        rewrite Hr; assert (Hm : no_recommendations m)
    end.
    { destruct (find _ possible_filenames) as [fname |]; [| reflexivity].
      apply load_matrix_keeps_recommendations; reflexivity. }
    rewrite Hm; destruct (dir "precomputed_hybrid.json"); reflexivity.
  - intros f; unfold loaded; rewrite !loaded_in_two_halves.
    match goal with
    | |- PRODUCTS_MAP (then_recommendations ?f1 ?m1) =
         PRODUCTS_MAP (then_recommendations ?f2 ?m2) /\ _ =>
        destruct (then_recommendations_maps f1 m1) as (Hp1 & Hn1 & _);
        destruct (then_recommendations_maps f2 m2) as (Hp2 & Hn2 & _);
        rewrite Hp1, Hn1, Hp2, Hn2; assert (Hm : m1 = m2)
    end.
    { unfold possible_filenames, with_file; cbn [find].
      change ("product_matrix.json" =? "precomputed_hybrid.json")%string with false.
      change ("product_index_map.json" =? "precomputed_hybrid.json")%string with false.
      cbv iota.
      destruct (exists_ (dir "product_matrix.json")); [reflexivity |].
      destruct (exists_ (dir "product_index_map.json")); reflexivity. }
    rewrite Hm; split; reflexivity.
Qed.

(** ** The loop over the matrix *)

Lemma for_each_app {A : Type} (l1 l2 : list A) (body : A -> proc unit) (g : globals) :
  Proc.for_each (l1 ++ l2) body g =
  match Proc.for_each l1 body g with
  | (Ok _, g1) => Proc.for_each l2 body g1
  | (Raise e, g1) => (Raise e, g1)
  end.
Proof.
  revert g; induction l1 as [| x l1 IH]; intros g; simpl; [reflexivity |].
  unfold Proc.bind.
  destruct (body x g) as [[a | e] g1]; [apply IH | reflexivity].
Qed.

Lemma loaded_from_items (dir : directory) (items : list json) :
  loaded (Some (matrix_of dir items)) =
  then_recommendations (dir "precomputed_hybrid.json") (index_all items).
Proof.
  rewrite (loaded_from_matrix (matrix_of dir items) (JArr items)); reflexivity.
Qed.

Lemma for_each_skips_text (items : list json) (g : globals) :
  Proc.for_each items index_item g =
  Proc.for_each (filter (fun item => negb (is_text_item item)) items) index_item g.
Proof.
  revert g; induction items as [| x items IH]; intros g; [reflexivity |].
  destruct x; simpl; unfold Proc.bind;
    try (match goal with
         | |- match ?c with _ => _ end = match ?c with _ => _ end =>
             destruct c as [[a | e] g1]; [apply IH | reflexivity]
         end).
  apply IH.
Qed.

(** X4. Texts among the elements of the matrix are passed over: loading a
    list gives what loading it without its texts gives. *)
Theorem texts_are_skipped (dir : directory) (items : list json) :
  loaded (Some (matrix_of dir items)) =
  loaded (Some (matrix_of dir (filter (fun item => negb (is_text_item item)) items))).
Proof.
  rewrite !loaded_from_items; unfold index_all.
  rewrite for_each_skips_text; reflexivity.
Qed.

Lemma ends_load_raises (item : json) (g : globals) :
  ends_load item = true -> exists g', index_item item g = (Raise AttributeError, g').
Proof.
  destruct item as [| b | z | f | s | l | p]; simpl; intros H;
    try discriminate H; try (eexists; reflexivity).
  apply andb_true_iff in H as [Hid Hname].
  rewrite Hid; unfold name_is_text in Hname.
  unfold Proc.bind, set_product, set_name, Proc.modify, Proc.lift; simpl.
  destruct (Dict.get_default p "product_name" (JStr EmptyString));
    try discriminate Hname; simpl; eexists; reflexivity.
Qed.

Lemma passes_load_returns (items : list json) (g : globals) :
  forallb passes_load items = true ->
  fst (Proc.for_each items index_item g) = Ok tt.
Proof.
  revert g; induction items as [| x items IH]; intros g H; [reflexivity |].
  simpl in H; apply andb_true_iff in H as [Hx Hrest].
  simpl; unfold Proc.bind.
  assert (Hok : fst (index_item x g) = Ok tt).
  { unfold passes_load in Hx; apply negb_true_iff in Hx.
    destruct x as [| b | z | f | s | l | p]; simpl in *;
      try discriminate Hx; try reflexivity.
    destruct (negb (derived_id p =? "None")%string); [| reflexivity].
    simpl in Hx; apply negb_false_iff in Hx; unfold name_is_text in Hx.
    unfold Proc.bind, set_product, set_name, Proc.modify, Proc.lift; simpl.
    destruct (Dict.get_default p "product_name" (JStr EmptyString));
      try discriminate Hx; reflexivity. }
  destruct (index_item x g) as [[[] | e] g1]; simpl in Hok;
    [apply IH; exact Hrest | discriminate Hok].
Qed.

(** X5. The loop ends at the first element it raises on: what comes after
    such an element is not loaded, and when the element is not a record it
    leaves nothing itself. *)
Theorem load_stops_at_bad_element (dir : directory)
    (before after : list json) (x : json) :
  ends_load x = true ->
  loaded (Some (matrix_of dir (before ++ x :: after)))
    = loaded (Some (matrix_of dir (before ++ [x]))) /\
  (is_foreign_item x = true ->
   loaded (Some (matrix_of dir (before ++ x :: after)))
     = loaded (Some (matrix_of dir before))).
Proof.
  intros Hx.
  assert (Hcut : forall rest,
             snd (Proc.for_each (before ++ x :: rest) index_item no_data) =
             snd (match Proc.for_each before index_item no_data with
                  | (Ok _, g1) => index_item x g1
                  | (Raise e, g1) => (Raise e, g1)
                  end)).
  { intros rest; rewrite for_each_app.
    destruct (Proc.for_each before index_item no_data) as [[a | e] g1];
      [| reflexivity].
    simpl; unfold Proc.bind.
    destruct (ends_load_raises x g1 Hx) as [g' Hg']; rewrite Hg'; reflexivity. }
  split.
  - rewrite !loaded_from_items; unfold index_all.
    rewrite (Hcut after), (Hcut []); reflexivity.
  - intros Hforeign; rewrite !loaded_from_items; unfold index_all.
    rewrite (Hcut after).
    destruct (Proc.for_each before index_item no_data) as [[a | e] g1];
      [| reflexivity].
    destruct x; try discriminate Hforeign; reflexivity.
Qed.

Lemma load_stops_at_bad_element_witness :
  loaded (Some (matrix_of Sample.shop
                  [Sample.shoe 1 "Red Shoe" "Acme"; JInt 7; Sample.shoe 2 "Blue Shoe" "Acme"]))
  = loaded (Some (matrix_of Sample.shop [Sample.shoe 1 "Red Shoe" "Acme"])).
Proof.
  apply (proj2 (load_stops_at_bad_element Sample.shop
                  [Sample.shoe 1 "Red Shoe" "Acme"]
                  [Sample.shoe 2 "Blue Shoe" "Acme"] (JInt 7) eq_refl)).
  reflexivity.
Defined.

(** X6. A record with a usable id whose name is not a text, reached by the
    loop, is stored in the catalog under its id and leaves the name index as
    it was: the catalog then holds a record that no name leads to. *)
Theorem misnamed_record_is_stored (dir : directory)
    (before after : list json) (p : product) :
  forallb passes_load before = true ->
  name_is_text p = false ->
  derived_id p <> "None" ->
  let g := loaded (Some (matrix_of dir (before ++ JObj p :: after))) in
  Dict.get (PRODUCTS_MAP g) (derived_id p) = Some p /\
  PRODUCT_NAMES_MAP g = PRODUCT_NAMES_MAP (loaded (Some (matrix_of dir before))).
Proof.
  intros Hbefore Hname Hid g; subst g.
  rewrite !loaded_from_items.
  destruct (then_recommendations_maps (dir "precomputed_hybrid.json")
              (index_all (before ++ JObj p :: after))) as (Hp1 & Hn1 & _).
  destruct (then_recommendations_maps (dir "precomputed_hybrid.json")
              (index_all before)) as (_ & Hn2 & _).
  rewrite Hp1, Hn1, Hn2; unfold index_all.
  rewrite for_each_app.
  pose proof (passes_load_returns before no_data Hbefore) as Hok.
  destruct (Proc.for_each before index_item no_data) as [[[] | e] g1];
    simpl in Hok; [| discriminate Hok].
  simpl; unfold Proc.bind.
  apply String.eqb_neq in Hid; rewrite Hid; simpl.
  unfold name_is_text in Hname.
  unfold Proc.bind, set_product, set_name, Proc.modify, Proc.lift; simpl.
  destruct (Dict.get_default p "product_name" (JStr EmptyString));
    try discriminate Hname; simpl;
    (split; [rewrite get_set, String.eqb_refl; reflexivity | reflexivity]).
Qed.

Lemma misnamed_record_is_stored_witness :
  let p := [("product_id", JInt 9); ("product_name", JInt 5)] in
  let g := loaded (Some (matrix_of Sample.shop
                           [Sample.shoe 1 "Red Shoe" "Acme"; JObj p;
                            Sample.shoe 2 "Blue Shoe" "Acme"])) in
  Dict.get (PRODUCTS_MAP g) "9" = Some p /\
  PRODUCT_NAMES_MAP g = [("Red Shoe", "1")].
Proof.
  intros p g.
  destruct (misnamed_record_is_stored Sample.shop
              [Sample.shoe 1 "Red Shoe" "Acme"]
              [Sample.shoe 2 "Blue Shoe" "Acme"] p) as [Hp Hn].
  - reflexivity.
  - reflexivity.
  - vm_compute; discriminate.
  - split; [exact Hp | exact (eq_trans Hn eq_refl)].
Defined.

(** ** Invariants of the two maps *)

Section DictKeys.
Context {V : Type}.
Implicit Types (d : Dict.t V) (k : string) (v : V).

Lemma mem_in_keys d k : Dict.mem d k = true <-> In k (Dict.keys d).
Proof.
  unfold Dict.mem, Dict.keys.
  induction d as [| [k0 v0] d IH]; simpl; [split; [discriminate | intros []] |].
  destruct (k0 =? k)%string eqn:E.
  - apply String.eqb_eq in E; split; [intros _; left; exact E | reflexivity].
  - apply String.eqb_neq in E; rewrite IH.
    split; [intros H; right; exact H | intros [H | H]; [contradiction | exact H]].
Qed.

Lemma keys_set d k v :
  Dict.keys (Dict.set d k v) =
  if Dict.mem d k then Dict.keys d else (Dict.keys d ++ [k])%list.
Proof.
  unfold Dict.mem, Dict.keys.
  induction d as [| [k0 v0] d IH]; simpl; [reflexivity |].
  destruct (k0 =? k)%string eqn:E; simpl.
  - apply String.eqb_eq in E; subst k0; reflexivity.
  - rewrite IH; destruct (Dict.get d k); reflexivity.
Qed.

Lemma NoDup_keys_set d k v :
  NoDup (Dict.keys d) -> NoDup (Dict.keys (Dict.set d k v)).
Proof.
  intros H; rewrite keys_set.
  destruct (Dict.mem d k) eqn:E; [exact H |].
  apply NoDup_rev in H; rewrite <- (rev_involutive (Dict.keys d ++ [k])).
  apply NoDup_rev; rewrite rev_app_distr; simpl.
  constructor; [| exact H].
  intros Hin; apply in_rev, mem_in_keys in Hin.
  rewrite Hin in E; discriminate E.
Qed.

Lemma get_of_in d k v : NoDup (Dict.keys d) -> In (k, v) d -> Dict.get d k = Some v.
Proof.
  unfold Dict.keys.
  induction d as [| [k0 v0] d IH]; simpl; intros Hnd Hin; [contradiction |].
  apply NoDup_cons_iff in Hnd as [Hk0 Hnd].
  destruct Hin as [Heq | Hin].
  - injection Heq as -> ->; rewrite String.eqb_refl; reflexivity.
  - destruct (k0 =? k)%string eqn:E; [| apply IH; assumption].
    apply String.eqb_eq in E; subst k0.
    contradiction Hk0; change k with (fst (k, v)); apply in_map; exact Hin.
Qed.
End DictKeys.

(** What every step of [load_data] keeps, [load_data] establishes. *)
Lemma load_data_invariant (I : globals -> Prop) :
  I no_data ->
  (forall item, preserves I (index_item item)) ->
  (forall r, preserves I (set_recommendations r)) ->
  forall fs g0, I (snd (load_data fs g0)).
Proof.
  intros Hempty Hitem Hrecs fs g0.
  destruct fs as [dir |]; [| exact Hempty].
  rewrite loaded_in_two_halves; unfold then_recommendations.
  assert (Hm : I (match find (fun fname => exists_ (dir fname)) possible_filenames with
                  | Some fname => snd (load_matrix (dir fname) no_data)
                  | None => no_data
                  end)).
  { destruct (find _ possible_filenames) as [fname |]; [| exact Hempty].
    revert Hempty; generalize no_data.
    change (preserves I (load_matrix (dir fname))).
    apply preserves_try; [| intros e; apply preserves_ret].
    apply preserves_bind; [apply preserves_lift |].
    intros raw; apply preserves_for_each; exact Hitem. }
  revert Hm; generalize (match find (fun fname => exists_ (dir fname)) possible_filenames with
                         | Some fname => snd (load_matrix (dir fname) no_data)
                         | None => no_data
                         end).
  destruct (exists_ (dir "precomputed_hybrid.json")); [| intros g Hg; exact Hg].
  change (preserves I (load_recommendations (dir "precomputed_hybrid.json"))).
  apply preserves_try; [| intros e; apply preserves_ret].
  apply preserves_bind; [apply preserves_lift | exact Hrecs].
Qed.

Lemma index_item_keeps_keys_unique (item : json) :
  preserves keys_unique (index_item item).
Proof.
  intros g [Hc Hn].
  destruct item as [| b | z | f | s | l | p]; simpl; try (split; assumption).
  destruct (negb (derived_id p =? "None")%string); [| split; assumption].
  unfold Proc.bind, set_product, set_name, Proc.modify, Proc.lift; simpl.
  destruct (Py.strip (Dict.get_default p "product_name" (JStr EmptyString)));
    simpl; split; simpl; try apply NoDup_keys_set; assumption.
Qed.

Lemma index_item_keeps_index_complete (item : json) :
  preserves index_complete (index_item item).
Proof.
  intros g Hg.
  destruct item as [| b | z | f | s | l | p]; simpl; try exact Hg.
  destruct (negb (derived_id p =? "None")%string); [| exact Hg].
  unfold Proc.bind, set_product, set_name, Proc.modify, Proc.lift; simpl.
  destruct (Dict.get_default p "product_name" (JStr EmptyString))
    as [| b | z | f | s | l | d] eqn:Hname; simpl;
    intros pid q Hin Htext; simpl in *;
    apply in_set in Hin as [[-> ->] | Hin];
    try (unfold name_is_text in Htext; rewrite Hname in Htext; discriminate Htext);
    try (apply (Hg pid q Hin Htext)).
  - unfold name_key; rewrite Hname; apply mem_set_same.
  - apply mem_set, (Hg pid q Hin Htext).
Qed.

(** X7. After [load_data] each map has one binding per key, and every
    record of the catalog is found again under the id derived from it. *)
Theorem catalog_lookup_round_trip (fs : option directory) (g0 : globals) :
  let g := snd (load_data fs g0) in
  keys_unique g /\
  forall p, In p (Dict.values (PRODUCTS_MAP g)) ->
            Dict.get (PRODUCTS_MAP g) (derived_id p) = Some p.
Proof.
  intros g.
  assert (Hu : keys_unique g).
  { apply load_data_invariant.
    - split; constructor.
    - exact index_item_keeps_keys_unique.
    - intros r g1 Hg1; exact Hg1. }
  split; [exact Hu |].
  intros p Hin.
  destruct (load_data_establishes_inv fs g0) as [_ Hfiled]; fold g in Hfiled.
  apply in_values in Hin as [pid Hin].
  destruct (Hfiled pid p Hin) as [-> _].
  apply get_of_in; [apply Hu | exact Hin].
Qed.

Lemma catalog_lookup_round_trip_witness :
  Dict.get (PRODUCTS_MAP (loaded (Some Sample.unnumbered))) (derived_id Sample.lamp)
  = Some Sample.lamp.
Proof.
  apply (catalog_lookup_round_trip (Some Sample.unnumbered) no_data).
  vm_compute; left; reflexivity.
Defined.

(** X8. After [load_data] every record of the catalog whose name is a text
    has its name, stripped, as a key of the name index. *)
Theorem names_are_indexed (fs : option directory) (g0 : globals) (p : product) :
  let g := snd (load_data fs g0) in
  In p (Dict.values (PRODUCTS_MAP g)) ->
  name_is_text p = true ->
  Dict.mem (PRODUCT_NAMES_MAP g) (name_key p) = true.
Proof.
  intros g Hin Htext.
  apply in_values in Hin as [pid Hin].
  assert (Hc : index_complete g).
  { apply load_data_invariant.
    - intros pid' q [].
    - exact index_item_keeps_index_complete.
    - intros r g1 Hg1; exact Hg1. }
  apply (Hc pid p Hin Htext).
Qed.

Lemma names_are_indexed_witness :
  Dict.mem (PRODUCT_NAMES_MAP (loaded (Some Sample.unnumbered))) "Lamp" = true.
Proof.
  apply (names_are_indexed (Some Sample.unnumbered) no_data Sample.lamp).
  - vm_compute; left; reflexivity.
  - reflexivity.
Defined.

(** ** Later records win *)

Lemma find_snoc {A : Type} (f : A -> bool) (l : list A) (x : A) :
  find f (l ++ [x]) =
  match find f l with
  | Some y => Some y
  | None => if f x then Some x else None
  end.
Proof.
  induction l as [| y l IH]; simpl; [reflexivity |].
  destruct (f y); [reflexivity | exact IH].
Qed.

Lemma index_loadable (p : product) (g : globals) :
  loadable p = true ->
  index_item (JObj p) g =
  (Ok tt,
   {| PRODUCTS_MAP := Dict.set (PRODUCTS_MAP g) (derived_id p) p;
      PRODUCT_NAMES_MAP := Dict.set (PRODUCT_NAMES_MAP g) (name_key p) (derived_id p);
      RECOMMENDATIONS := RECOMMENDATIONS g |}).
Proof.
  unfold loadable, name_is_text, name_key; intros H.
  apply andb_true_iff in H as [Hname Hid].
  simpl; rewrite Hid.
  unfold Proc.bind, set_product, set_name, Proc.modify, Proc.lift; simpl.
  destruct (Dict.get_default p "product_name" (JStr EmptyString));
    try discriminate Hname; reflexivity.
Qed.

Lemma for_each_loadable (ps : list product) (g : globals) :
  forallb loadable ps = true ->
  let g' := snd (Proc.for_each (map JObj ps) index_item g) in
  (forall pid,
      Dict.get (PRODUCTS_MAP g') pid =
      match find (fun p => (derived_id p =? pid)%string) (rev ps) with
      | Some p => Some p
      | None => Dict.get (PRODUCTS_MAP g) pid
      end) /\
  (forall nm,
      Dict.get (PRODUCT_NAMES_MAP g') nm =
      match find (fun p => (name_key p =? nm)%string) (rev ps) with
      | Some p => Some (derived_id p)
      | None => Dict.get (PRODUCT_NAMES_MAP g) nm
      end).
Proof.
  revert g; induction ps as [| p ps IH]; intros g H; [split; reflexivity |].
  simpl in H; apply andb_true_iff in H as [Hp Hps].
  cbv zeta; cbn [map Proc.for_each]; unfold Proc.bind.
  rewrite (index_loadable p g Hp).
  set (g1 := {| PRODUCTS_MAP := Dict.set (PRODUCTS_MAP g) (derived_id p) p;
                PRODUCT_NAMES_MAP :=
                  Dict.set (PRODUCT_NAMES_MAP g) (name_key p) (derived_id p);
                RECOMMENDATIONS := RECOMMENDATIONS g |}).
  destruct (IH g1 Hps) as [Hc Hn]; cbv zeta in Hc, Hn; cbn [rev].
  split.
  - intros pid; rewrite Hc, find_snoc; unfold g1; cbn [PRODUCTS_MAP].
    destruct (find _ (rev ps)); [reflexivity |].
    rewrite get_set; destruct (derived_id p =? pid)%string; reflexivity.
  - intros nm; rewrite Hn, find_snoc; unfold g1; cbn [PRODUCT_NAMES_MAP].
    destruct (find _ (rev ps)); [reflexivity |].
    rewrite get_set; destruct (name_key p =? nm)%string; reflexivity.
Qed.

(** X9. When every element of the matrix is a record with a text for a name
    and a usable id, the catalog gives for an id the last record with that
    id, and the name index gives for a name the id of the last record with
    that name. *)
Theorem later_records_win (dir : directory) (ps : list product) :
  forallb loadable ps = true ->
  let g := loaded (Some (matrix_of dir (map JObj ps))) in
  (forall pid,
      Dict.get (PRODUCTS_MAP g) pid =
      find (fun p => (derived_id p =? pid)%string) (rev ps)) /\
  (forall nm,
      Dict.get (PRODUCT_NAMES_MAP g) nm =
      option_map derived_id (find (fun p => (name_key p =? nm)%string) (rev ps))).
Proof.
  intros Hps g; subst g; rewrite loaded_from_items.
  destruct (then_recommendations_maps (dir "precomputed_hybrid.json")
              (index_all (map JObj ps))) as (Hp & Hn & _).
  rewrite Hp, Hn; unfold index_all.
  destruct (for_each_loadable ps no_data Hps) as [Hc Hi].
  split.
  - intros pid; rewrite Hc; destruct (find _ (rev ps)); reflexivity.
  - intros nm; rewrite Hi; destruct (find _ (rev ps)); reflexivity.
Qed.

Lemma later_records_win_witness :
  let first := Sample.item 1 "Oak Desk" "Pine" in
  let second := Sample.item 1 "Oak Desk" "Birch" in
  Dict.get (PRODUCTS_MAP (loaded (Some (matrix_of Sample.shop (map JObj [first; second])))))
           "1" = Some second.
Proof.
  intros first second.
  destruct (later_records_win Sample.shop [first; second] eq_refl) as [Hc _].
  rewrite Hc; reflexivity.
Defined.

(** * Further properties of the normaliser and of the top products *)

Lemma normalize_product_id (p : product) (n : normalized) :
  normalize_product p = Ok n ->
  p_id n = PyStr.str (Dict.get_default p "product_id_numeric" JNull).
Proof.
  unfold normalize_product; intros H.
  apply bind_ok in H as (price & _ & H).
  apply bind_ok in H as (disc & _ & H).
  injection H as <-; reflexivity.
Qed.

(** X10. For a record of the loaded catalog, the id in its normalised form
    is the catalog key when the record has a [product_id_numeric] field;
    when it has none, the normalised id is the text [None], which is never
    its key. *)
Theorem normalized_id_and_key (fs : option directory) (g0 : globals)
    (pid : string) (p : product) (n : normalized) :
  In (pid, p) (PRODUCTS_MAP (snd (load_data fs g0))) ->
  normalize_product p = Ok n ->
  (Dict.mem p "product_id_numeric" = true -> p_id n = pid) /\
  (Dict.mem p "product_id_numeric" = false -> p_id n = "None" /\ p_id n <> pid).
Proof.
  intros Hin Hn.
  destruct (load_data_establishes_inv fs g0) as [_ Hfiled].
  destruct (Hfiled pid p Hin) as [Hid Hne].
  rewrite (normalize_product_id p n Hn).
  unfold derived_id, Dict.get_default, Dict.mem in *.
  destruct (Dict.get p "product_id_numeric") as [v |]; split; intros H;
    try discriminate H.
  - exact Hid.
  - split; [reflexivity |].
    intros Heq; apply Hne; rewrite <- Heq; reflexivity.
Qed.

Lemma normalized_id_and_key_witness :
  exists n, normalize_product Sample.bare_lamp = Ok n /\ p_id n = "None".
Proof.
  destruct (normalize_product Sample.bare_lamp) as [n | e] eqn:Hn;
    [| vm_compute in Hn; discriminate Hn].
  exists n; split; [reflexivity |].
  apply (normalized_id_and_key (Some Sample.brandless) no_data "1" Sample.bare_lamp n).
  - vm_compute; left; reflexivity.
  - exact Hn.
  - reflexivity.
Defined.

(** X11. [get_top_products] never raises: it returns the first records of
    the catalog, in catalog order, normalised, twenty of them or all when
    there are fewer. *)
Theorem top_products_are_first (g : globals) :
  exists ns,
    get_top_products g = Ok ns /\
    Forall2 normalizes (firstn 20 (Dict.values (PRODUCTS_MAP g))) ns /\
    List.length ns = Nat.min 20 (List.length (PRODUCTS_MAP g)).
Proof.
  destruct (normalized_list (firstn 20 (Dict.values (PRODUCTS_MAP g))))
    as (ns & Hns & Hall).
  exists ns; split; [| split; [exact Hall |]].
  - unfold get_top_products.
    destruct (PRODUCTS_MAP g) as [| b d] eqn:E; [| exact Hns].
    simpl in Hns; exact Hns.
  - apply Forall2_length in Hall; rewrite <- Hall.
    rewrite length_firstn; unfold Dict.values; rewrite length_map; reflexivity.
Qed.

(** * Further properties of the search *)

(** X12. On an empty catalog every search returns the empty list and so do
    the top products, whatever the name index and the recommendations hold,
    well formed or not. *)
Theorem empty_catalog_empty_answers (q : option string) (g : globals) :
  PRODUCTS_MAP g = [] ->
  search_products q g = Ok [] /\ get_top_products g = Ok [].
Proof.
  intros H; split.
  - unfold search_products, brand_search, fallback; rewrite H; simpl.
    destruct (query_of q =? EmptyString)%string; reflexivity.
  - unfold get_top_products; rewrite H; reflexivity.
Qed.

Lemma empty_catalog_empty_answers_witness :
  let g := loaded (Some (Sample.in_dir (Unreadable ValueError) (Holds (JInt 3)))) in
  RECOMMENDATIONS g = JInt 3 /\
  search_products (Some "shoe") g = Ok [] /\
  get_top_products g = Ok [].
Proof.
  split; [reflexivity |].
  apply (empty_catalog_empty_answers (Some "shoe")); reflexivity.
Defined.

(** ** The query is read without its case and its margins *)

Lemma lower_char_idempotent (c : ascii) :
  Text.lower_char (Text.lower_char c) = Text.lower_char c.
Proof.
  destruct c as [[] [] [] [] [] [] [] []]; reflexivity.
Qed.

Lemma lower_idempotent (s : string) : Text.lower (Text.lower s) = Text.lower s.
Proof.
  induction s as [| c s IH]; simpl; [reflexivity |].
  rewrite lower_char_idempotent, IH; reflexivity.
Qed.

Lemma lower_append (s t : string) :
  Text.lower (s ++ t) = Text.lower s ++ Text.lower t.
Proof.
  induction s as [| c s IH]; simpl; [reflexivity | rewrite IH; reflexivity].
Qed.

Lemma lstrip_margin (m s : string) :
  Text.all_chars Text.isspace m = true -> Text.lstrip (m ++ s) = Text.lstrip s.
Proof.
  induction m as [| c m IH]; simpl; [reflexivity |].
  intros H; apply andb_true_iff in H as [Hc Hm]; rewrite Hc; apply IH; exact Hm.
Qed.

Lemma rstrip_all_space (m : string) :
  Text.all_chars Text.isspace m = true -> Text.rstrip m = EmptyString.
Proof.
  induction m as [| c m IH]; simpl; [reflexivity |].
  intros H; apply andb_true_iff in H as [Hc Hm].
  rewrite (IH Hm), Hc; reflexivity.
Qed.

Lemma rstrip_margin (s m : string) :
  Text.all_chars Text.isspace m = true -> Text.rstrip (s ++ m) = Text.rstrip s.
Proof.
  intros Hm; induction s as [| c s IH]; simpl.
  - apply rstrip_all_space; exact Hm.
  - rewrite IH; reflexivity.
Qed.

Lemma lstrip_append (s m : string) :
  Text.all_chars Text.isspace m = true ->
  Text.rstrip (Text.lstrip (s ++ m)) = Text.rstrip (Text.lstrip s).
Proof.
  intros Hm; induction s as [| c s IH]; simpl.
  - rewrite (lstrip_all_space m Hm); reflexivity.
  - destruct (Text.isspace c); [exact IH |].
    apply (rstrip_margin (String c s) m Hm).
Qed.

Lemma strip_margins (m1 s m2 : string) :
  Text.all_chars Text.isspace m1 = true ->
  Text.all_chars Text.isspace m2 = true ->
  Text.strip (m1 ++ s ++ m2) = Text.strip s.
Proof.
  intros H1 H2; unfold Text.strip.
  rewrite (lstrip_margin m1 (s ++ m2) H1); apply lstrip_append; exact H2.
Qed.

(** X13. The answer depends on the query only through its lowered, stripped
    form: writing the query in lower case, or putting white space around it,
    changes nothing. *)
Theorem search_ignores_case_and_margins (s m1 m2 : string) (g : globals) :
  Text.all_chars Text.isspace m1 = true ->
  Text.all_chars Text.isspace m2 = true ->
  search_products (Some (Text.lower s)) g = search_products (Some s) g /\
  search_products (Some (m1 ++ s ++ m2)) g = search_products (Some s) g.
Proof.
  intros H1 H2.
  assert (Hlow : query_of (Some (Text.lower s)) = query_of (Some s)).
  { unfold query_of; rewrite lower_idempotent; reflexivity. }
  assert (Hpad : query_of (Some (m1 ++ s ++ m2)) = query_of (Some s)).
  { unfold query_of; rewrite !lower_append.
    apply strip_margins; apply all_space_lower; assumption. }
  unfold search_products; rewrite Hlow, Hpad; split; reflexivity.
Qed.

Lemma search_ignores_case_and_margins_witness :
  search_products (Some "  ACME ") (loaded (Some Sample.shop))
  = search_products (Some "ACME") (loaded (Some Sample.shop)).
Proof.
  apply (proj2 (search_ignores_case_and_margins "ACME" "  " " "
                  (loaded (Some Sample.shop)) eq_refl eq_refl)).
Defined.

(** ** The answer is made of catalog records *)

Lemma item_in_values {V : Type} (d : Dict.t V) (k : string) (v : V) :
  Dict.item d k = Ok v -> In v (Dict.values d).
Proof.
  unfold Dict.item; destruct (Dict.get d k) as [v' |] eqn:E; [| discriminate].
  intros H; injection H as <-.
  apply get_in in E; change v' with (snd (k, v')); apply in_map; exact E.
Qed.

Lemma resolve_from_catalog (g : globals) (stubs : list json)
    (results found : list product) :
  Forall (fun p => In p (Dict.values (PRODUCTS_MAP g))) results ->
  resolve g stubs results = Ok found ->
  Forall (fun p => In p (Dict.values (PRODUCTS_MAP g))) found.
Proof.
  revert results; induction stubs as [| stub stubs IH]; simpl; intros results Hres H.
  - injection H as <-; exact Hres.
  - apply bind_ok in H as (results' & Hstep & H).
    apply (IH results'); [| exact H].
    unfold resolve_stub in Hstep.
    apply bind_ok in Hstep as (stub_name & _ & Hstep).
    apply bind_ok in Hstep as ([|] & _ & Hstep).
    + apply bind_ok in Hstep as (pid & _ & Hstep).
      apply bind_ok in Hstep as (p & Hp & Hstep).
      injection Hstep as <-.
      apply Forall_app; split; [exact Hres |].
      constructor; [apply (item_in_values _ pid); exact Hp | constructor].
    + injection Hstep as <-; exact Hres.
Qed.

Lemma hybrid_recs_from_catalog (g : globals) (anchor : option string)
    (found : list product) :
  hybrid_recs g anchor = Ok (Some found) ->
  Forall (fun p => In p (Dict.values (PRODUCTS_MAP g))) found.
Proof.
  unfold hybrid_recs.
  destruct anchor as [pid |]; [| discriminate].
  destruct (pid =? EmptyString)%string; [discriminate |].
  intros H.
  apply bind_ok in H as ([|] & _ & H); [| discriminate H].
  apply bind_ok in H as (rec_list & _ & H).
  apply bind_ok in H as (stubs & _ & H).
  apply bind_ok in H as (results & Hres & H).
  destruct results as [| r rs]; [discriminate H |].
  injection H as <-.
  apply (resolve_from_catalog g stubs [] (r :: rs)); [constructor | exact Hres].
Qed.

Lemma scoring_from_catalog (query : string) (items : list (string * product))
    (scored found : list (Z * product)) (P : product -> Prop) :
  Forall (fun sp => P (snd sp)) scored ->
  Forall (fun item => P (snd item)) items ->
  scoring query items scored = Ok found ->
  Forall (fun sp => P (snd sp)) found.
Proof.
  revert scored; induction items as [| [pid p] items IH]; simpl;
    intros scored Hs Hitems H.
  - injection H as <-; exact Hs.
  - apply bind_ok in H as (score & _ & H).
    apply Forall_cons_iff in Hitems as [Hp Hitems].
    refine (IH _ _ Hitems H).
    destruct (0 <? score); [| exact Hs].
    apply Forall_app; split; [exact Hs | constructor; [exact Hp | constructor]].
Qed.

Lemma Forall_firstn_of {A : Type} (P : A -> Prop) (n : nat) (l : list A) :
  Forall P l -> Forall P (firstn n l).
Proof.
  intros H; rewrite <- (firstn_skipn n l) in H.
  apply Forall_app in H as [H _]; exact H.
Qed.

Lemma normalized_from (P : product -> Prop) (l : list product) (ns : list normalized) :
  Forall P l ->
  comprehension normalize_product l = Ok ns ->
  Forall (fun n => exists p, P p /\ normalizes p n) ns.
Proof.
  intros Hl H; apply comprehension_Forall2 in H.
  induction H as [| p n l ns Hpn _ IH]; [constructor |].
  apply Forall_cons_iff in Hl as [Hp Hl].
  constructor; [exists p; split; assumption | apply IH; exact Hl].
Qed.

(** X14. Whatever stage answers, every element of a returned list is the
    normalised form of a record that is in the catalog: the search returns
    nothing else, also where the name index or the recommendations are
    stale or ill formed. *)
Theorem search_returns_catalog_records (q : option string) (g : globals)
    (ns : list normalized) :
  search_products q g = Ok ns ->
  Forall (fun n => exists p, In p (Dict.values (PRODUCTS_MAP g)) /\ normalizes p n) ns.
Proof.
  set (P := fun p => In p (Dict.values (PRODUCTS_MAP g))).
  unfold search_products.
  destruct (query_of q =? EmptyString)%string; [intros H; injection H as <-; constructor |].
  destruct (brand_search (query_of q) g) as [| b bs] eqn:Hb.
  - intros H.
    apply bind_ok in H as (anchor & _ & H).
    apply bind_ok in H as ([found |] & Hstage2 & H).
    + apply (normalized_from P (firstn 20 found)); [| exact H].
      apply Forall_firstn_of, (hybrid_recs_from_catalog g anchor); exact Hstage2.
    + unfold fallback in H.
      apply bind_ok in H as (scored & Hscored & H).
      apply (normalized_from P _ ns) in H; [exact H |].
      apply Forall_map, Forall_firstn_of.
      apply (Permutation_Forall (Permutation_sym (sort_desc_perm fst scored))).
      apply (scoring_from_catalog (query_of q) (PRODUCTS_MAP g) [] scored P);
        [constructor | | exact Hscored].
      apply Forall_forall; intros item Hitem; unfold P, Dict.values.
      apply in_map; exact Hitem.
  - intros H.
    apply (normalized_from P (firstn 20 (b :: bs))); [| exact H].
    apply Forall_firstn_of; rewrite <- Hb; unfold brand_search.
    apply Forall_forall; intros p Hp; apply filter_In in Hp as [Hp _]; exact Hp.
Qed.

Lemma search_returns_catalog_records_witness :
  exists ns,
    search_products (Some "hat") (loaded (Some Sample.shop)) = Ok ns /\
    Forall (fun n => exists p,
                In p (Dict.values (PRODUCTS_MAP (loaded (Some Sample.shop)))) /\
                normalizes p n) ns.
Proof.
  eexists; split; [vm_compute; reflexivity |].
  apply (search_returns_catalog_records (Some "hat")); vm_compute; reflexivity.
Defined.

(** ** A query that nothing contains *)

Lemma prefix_refl (s : string) : prefix s s = true.
Proof.
  induction s as [| c s IH]; simpl; [reflexivity |].
  destruct (ascii_dec c c) as [_ | Hne]; [exact IH | contradiction Hne; reflexivity].
Qed.

Lemma contains_refl (s : string) : Text.contains s s = true.
Proof.
  destruct s as [| c s]; [reflexivity |].
  unfold Text.contains; fold Text.contains.
  rewrite (prefix_refl (String c s)); reflexivity.
Qed.

(** X15. When the names of the records are texts and neither the name nor
    the brand of any record contains the query, the search returns the empty
    list, whatever the recommendations hold. *)
Theorem unmatched_query_is_empty (q : option string) (g : globals) :
  names_are_text g = true ->
  (forall p, In p (Dict.values (PRODUCTS_MAP g)) -> score (query_of q) p = 0) ->
  search_products q g = Ok [].
Proof.
  intros Hnames Hzero.
  unfold search_products.
  destruct (query_of q =? EmptyString)%string; [reflexivity |].
  assert (Hcold : forall p, In p (Dict.values (PRODUCTS_MAP g)) ->
                            name_hit (query_of q) p = false /\
                            brand_hit (query_of q) p = false).
  { intros p Hp; specialize (Hzero p Hp); unfold score in Hzero.
    destruct (name_hit (query_of q) p), (brand_hit (query_of q) p);
      try discriminate Hzero; split; reflexivity. }
  assert (Hbrand : brand_search (query_of q) g = []).
  { unfold brand_search.
    destruct (filter _ (Dict.values (PRODUCTS_MAP g))) as [| p l] eqn:E;
      [reflexivity |].
    assert (Hp : In p (p :: l)) by (left; reflexivity).
    rewrite <- E in Hp; apply filter_In in Hp as [Hp Heq].
    apply String.eqb_eq in Heq.
    destruct (Hcold p Hp) as [_ Hb]; unfold brand_hit in Hb.
    rewrite <- Heq, contains_refl in Hb; discriminate Hb. }
  rewrite Hbrand, (find_anchor_text _ _ Hnames); cbn [bind].
  assert (Hanchor : first_name_match (query_of q) (PRODUCTS_MAP g) = None).
  { unfold first_name_match.
    destruct (find _ (PRODUCTS_MAP g)) as [[pid p] |] eqn:E; [| reflexivity].
    apply find_some in E as [Hin Hhit]; simpl in Hhit.
    destruct (Hcold p) as [Hn _];
      [change p with (snd (pid, p)); apply in_map; exact Hin |].
    rewrite Hn in Hhit; discriminate Hhit. }
  rewrite Hanchor; cbn [hybrid_recs bind].
  rewrite (fallback_text _ g Hnames).
  assert (Hkept : kept (query_of q) g = []).
  { unfold kept.
    destruct (filter _ (Dict.values (PRODUCTS_MAP g))) as [| p l] eqn:E;
      [reflexivity |].
    assert (Hp : In p (p :: l)) by (left; reflexivity).
    rewrite <- E in Hp; apply filter_In in Hp as [Hp Hpos].
    rewrite (Hzero p Hp) in Hpos; discriminate Hpos. }
  rewrite Hkept; reflexivity.
Qed.

Lemma unmatched_query_is_empty_witness :
  search_products (Some "zebra") (loaded (Some Sample.shop)) = Ok [].
Proof.
  apply (unmatched_query_is_empty (Some "zebra") (loaded (Some Sample.shop))).
  - reflexivity.
  - intros p Hp; vm_compute in Hp.
    repeat (destruct Hp as [<- | Hp]; [vm_compute; reflexivity |]).
    contradiction Hp.
Defined.

(** * Properties of the account routes *)

Section AccountFacts.
Variable sv : services.

Lemma find_unique {A : Type} (f : A -> Z) (l : list A) (x : A) :
  NoDup (map f l) -> In x l -> find (fun y => f y =? f x) l = Some x.
Proof.
  induction l as [| y l IH]; simpl; intros Hnd Hin; [contradiction |].
  apply NoDup_cons_iff in Hnd as [Hy Hnd].
  destruct Hin as [-> | Hin]; [rewrite Z.eqb_refl; reflexivity |].
  destruct (f y =? f x) eqn:E; [| apply IH; assumption].
  apply Z.eqb_eq in E; contradiction Hy; rewrite E; apply in_map; exact Hin.
Qed.

Lemma first_by_email_none (address : string) (db : list User.t) :
  first_by_email address db = None -> ~ In address (map User.email db).
Proof.
  unfold first_by_email; intros H Hin.
  apply in_map_iff in Hin as (u & Hu & Hin).
  apply (find_none _ _ H) in Hin; simpl in Hin.
  rewrite Hu, String.eqb_refl in Hin; discriminate Hin.
Qed.

Lemma NoDup_snoc {A : Type} (l : list A) (x : A) :
  NoDup l -> ~ In x l -> NoDup (l ++ [x]).
Proof.
  intros Hl Hx.
  apply NoDup_rev in Hl; rewrite <- (rev_involutive (l ++ [x])).
  apply NoDup_rev; rewrite rev_app_distr; simpl.
  constructor; [| exact Hl].
  intros Hin; apply Hx, in_rev; exact Hin.
Qed.

(** X17. [signup] adds at most one row and changes none: the table after it
    is the table before, or that table followed by one row with the address,
    the name and the hash of the given password.  When the database gives
    the new row a key that is not in use and not 0, keys and addresses stay
    distinct, since an address that is registered is refused. *)
Theorem signup_keeps_table (payload : SignupIn.t) (salt : string) (w : world) :
  ~ In (assign_id sv (users w)) (map User.id (users w)) ->
  assign_id sv (users w) <> 0 ->
  table_sound (users w) ->
  let w' := snd (signup sv payload salt w) in
  table_sound (users w') /\
  (users w' = users w \/
   exists u,
     users w' = (users w ++ [u])%list /\
     User.email u = SignupIn.email payload /\
     User.name u = SignupIn.name payload /\
     User.password_hash u =
       generate_password_hash sv (SignupIn.password payload) salt).
Proof.
  intros Hfresh Hnonzero (Hids & Hnz & Hemails) w'; subst w'.
  unfold signup.
  destruct (first_by_email (SignupIn.email payload) (users w)) as [u |] eqn:E; simpl.
  - split; [repeat split; assumption | left; reflexivity].
  - split.
    + repeat split.
      * rewrite map_app; apply NoDup_snoc; assumption.
      * apply Forall_app; split; [exact Hnz | constructor; [exact Hnonzero | constructor]].
      * rewrite map_app; apply NoDup_snoc; [exact Hemails |].
        apply first_by_email_none; exact E.
    + right; eexists; repeat split; reflexivity.
Qed.

(** X18. An account that [signup] has just made can be opened: [login] with
    the same address and password succeeds, whatever the session holds by
    then, and puts the key of that account in the session, provided that
    [check_password_hash] accepts the hash [generate_password_hash] made. *)
Theorem signup_then_login (payload : SignupIn.t) (salt : string) (w : world)
    (later : option Z) :
  check_password_hash sv
    (generate_password_hash sv (SignupIn.password payload) salt)
    (SignupIn.password payload) = true ->
  first_by_email (SignupIn.email payload) (users w) = None ->
  let w1 := snd (signup sv payload salt w) in
  login sv {| LoginIn.email := SignupIn.email payload;
              LoginIn.password := SignupIn.password payload |}
        {| users := users w1; session_user_id := later |}
  = (Succeeded (Some (SignupIn.name payload)),
     {| users := users w1; session_user_id := session_user_id w1 |}).
Proof.
  intros Hcheck Hnew w1; subst w1.
  unfold signup; rewrite Hnew; simpl.
  unfold login, first_by_email; simpl.
  rewrite find_snoc.
  unfold first_by_email in Hnew; rewrite Hnew; simpl.
  rewrite String.eqb_refl; simpl.
  rewrite Hcheck; reflexivity.
Qed.

(** X19. [login] never changes the table.  When it succeeds, the session
    holds the key of a row with the given address whose hash the given
    password passes, and the answer names that row; when it fails, the
    answer is a 401 and the session is what it was. *)
Theorem login_is_sound (payload : LoginIn.t) (w : world) :
  users (snd (login sv payload w)) = users w /\
  match fst (login sv payload w) with
  | Succeeded answer =>
      exists u,
        In u (users w) /\
        User.email u = LoginIn.email payload /\
        check_password_hash sv (User.password_hash u) (LoginIn.password payload) = true /\
        answer = Some (User.name u) /\
        session_user_id (snd (login sv payload w)) = Some (User.id u)
  | Failed status_code _ =>
      status_code = 401 /\ snd (login sv payload w) = w
  end.
Proof.
  unfold login.
  destruct (first_by_email (LoginIn.email payload) (users w)) as [u |] eqn:E;
    [| simpl; repeat split; reflexivity].
  destruct (check_password_hash sv (User.password_hash u) (LoginIn.password payload))
    eqn:Hcheck; simpl; [| repeat split; reflexivity].
  split; [reflexivity |].
  apply find_some in E as [Hin Heq]; simpl in Heq; apply String.eqb_eq in Heq.
  exists u; repeat split; assumption.
Qed.

(** X20. On a table whose keys differ and are not 0, [home] shows the name of
    the user a successful [login] has just answered with; after [logout] it
    shows none. *)
Theorem home_follows_session (payload : LoginIn.t) (w : world) (shown : string) :
  table_sound (users w) ->
  fst (login sv payload w) = Succeeded (Some shown) ->
  home (snd (login sv payload w)) = Some shown /\
  home (snd (logout (snd (login sv payload w)))) = None.
Proof.
  intros (Hids & Hnz & _) H; split; [| reflexivity].
  unfold login in *.
  destruct (first_by_email (LoginIn.email payload) (users w)) as [u |] eqn:E;
    [| discriminate H].
  destruct (check_password_hash sv (User.password_hash u) (LoginIn.password payload));
    [| discriminate H].
  simpl in *; injection H as <-.
  apply find_some in E as [Hin _].
  unfold home; simpl.
  assert (Hne : User.id u <> 0).
  { apply (proj1 (Forall_forall _ _) Hnz); exact Hin. }
  apply Z.eqb_neq in Hne; rewrite Hne.
  unfold first_by_id; rewrite (find_unique User.id (users w) u Hids Hin); reflexivity.
Qed.

End AccountFacts.

Lemma signup_keeps_table_witness :
  table_sound (users (snd (signup Demo.sv Demo.ann "salt" Demo.nobody))).
Proof.
  apply (signup_keeps_table Demo.sv Demo.ann "salt" Demo.nobody).
  - intros [].
  - vm_compute; discriminate.
  - repeat split; constructor.
Defined.

Lemma signup_then_login_witness :
  fst (login Demo.sv Demo.ann_login
         {| users := users (snd (signup Demo.sv Demo.ann "salt" Demo.nobody));
            session_user_id := None |})
  = Succeeded (Some "Ann").
Proof.
  exact (f_equal fst
           (signup_then_login Demo.sv Demo.ann "salt" Demo.nobody None eq_refl eq_refl)).
Defined.

Lemma home_follows_session_witness :
  home (snd (login Demo.sv Demo.ann_login
               (snd (logout (snd (signup Demo.sv Demo.ann "salt" Demo.nobody))))))
  = Some "Ann".
Proof.
  apply (home_follows_session Demo.sv Demo.ann_login
           (snd (logout (snd (signup Demo.sv Demo.ann "salt" Demo.nobody)))) "Ann").
  - split; [| split]; vm_compute.
    + constructor; [intros [] | constructor].
    + constructor; [discriminate | constructor].
    + constructor; [intros [] | constructor].
  - reflexivity.
Defined.

(** * From well-formed files to a search that does not raise *)

Lemma preserves_for_each_in {A : Type} (I : globals -> Prop) (l : list A)
    (body : A -> proc unit) :
  (forall x, In x l -> preserves I (body x)) -> preserves I (Proc.for_each l body).
Proof.
  induction l as [| x l IH]; intros Hb; simpl.
  - apply preserves_ret.
  - apply preserves_bind; [apply Hb; left; reflexivity |].
    intros _; apply IH; intros y Hy; apply Hb; right; exact Hy.
Qed.

Lemma forallb_values_set {V : Type} (P : V -> bool) (d : Dict.t V) (k : string) (v : V) :
  forallb P (Dict.values d) = true -> P v = true ->
  forallb P (Dict.values (Dict.set d k v)) = true.
Proof.
  unfold Dict.values; intros Hd Hv.
  induction d as [| [k0 v0] d IH]; simpl in *; [rewrite Hv; reflexivity |].
  apply andb_true_iff in Hd as [H0 Hd].
  destruct (k0 =? k)%string; simpl.
  - rewrite Hv; exact Hd.
  - rewrite H0; apply IH; exact Hd.
Qed.

Lemma index_item_keeps_text_names (item : json) :
  well_formed_item item = true ->
  preserves (fun g => names_are_text g = true) (index_item item).
Proof.
  intros Hitem g Hg.
  destruct item as [| b | z | f | s | l | p]; simpl in *; try discriminate Hitem;
    [exact Hg |].
  destruct (negb (derived_id p =? "None")%string); [| exact Hg].
  unfold Proc.bind, set_product, set_name, Proc.modify, Proc.lift; simpl.
  destruct (Py.strip (Dict.get_default p "product_name" (JStr EmptyString)));
    simpl; unfold names_are_text; simpl;
    apply forallb_values_set; assumption.
Qed.

(** X16. When the product matrix holds only records whose name is a text or
    is missing, and texts, and the recommendation file is missing, unreadable
    or holds a table from ids to lists of stubs, then after [load_data] no
    query makes [search_products] raise. *)
Theorem well_formed_files_never_raise (dir : directory) (raw : json)
    (q : option string) :
  dir "product_matrix.json" = Holds raw ->
  forallb well_formed_item (data_list raw) = true ->
  table_ok match dir "precomputed_hybrid.json" with
           | Holds r => r
           | _ => JObj []
           end = true ->
  returns (search_products q (loaded (Some dir))).
Proof.
  intros Hraw Hitems Htable.
  apply search_returns_on_shaped_data.
  - rewrite (loaded_from_matrix dir raw Hraw); unfold names_are_text.
    destruct (then_recommendations_maps (dir "precomputed_hybrid.json")
                (index_all (data_list raw))) as (Hp & _).
    rewrite Hp; unfold index_all.
    apply (preserves_for_each_in (fun g => names_are_text g = true));
      [| reflexivity].
    intros x Hx; apply index_item_keeps_text_names.
    apply (proj1 (forallb_forall _ _) Hitems); exact Hx.
  - rewrite (loaded_from_matrix dir raw Hraw).
    destruct (then_recommendations_maps (dir "precomputed_hybrid.json")
                (index_all (data_list raw))) as (_ & _ & Hr).
    rewrite Hr.
    assert (Hnone : no_recommendations (index_all (data_list raw))).
    { unfold index_all; apply preserves_for_each; [| reflexivity].
      exact index_item_keeps_recommendations. }
    rewrite Hnone; destruct (dir "precomputed_hybrid.json"); exact Htable.
  - apply (load_data_establishes_inv (Some dir) no_data).
Qed.

Lemma well_formed_files_never_raise_witness :
  returns (search_products (Some "hat") (loaded (Some Sample.shop))).
Proof.
  eapply (well_formed_files_never_raise Sample.shop); reflexivity.
Defined.
